(** * Spotify top-items fetcher and OAuth token manager

    A shallow embedding of [spotify_client.py] (the paginated fetcher
    [SpotifyTopItems]) and of [spotify_auth.py] (the token manager, the
    callback handler and [get_valid_token]), followed by the properties
    of the specification that were checked against them. *)

From stdpp Require Import base list strings gmap.
From Stdlib Require Import ZArith Lia.

(** ** Python built-ins used by the sources *)

Module Py.

(** [range(start, stop, step)] for a positive [step] (the only use in the
    sources is [range(50, total, 50)]). *)
Definition range (start stop step : Z) : list Z :=
  (λ k : nat, start + step * Z.of_nat k)%Z
    <$> seq 0 (Z.to_nat ((stop - start + step - 1) `div` step)).

(** [l[:n]]: a negative bound counts from the end of the list. *)
Definition slice_to {A} (l : list A) (n : Z) : list A :=
  if (n <? 0)%Z then take (Z.to_nat (Z.of_nat (length l) + n)) l
  else take (Z.to_nat n) l.

(** Truth value of an optional integer argument ([None] and [0] are false). *)
Definition truthy_int (o : option Z) : bool :=
  match o with
  | Some n => negb (n =? 0)%Z
  | None => false
  end.

(** Truth value of a string ([os.getenv] gives [None] or a string). *)
Definition truthy_str (o : option string) : bool :=
  match o with
  | Some s => negb (String.eqb s "")
  | None => false
  end.

(** A string holds the UTF-8 encoding of a Python [str]: a character is
    one byte below 128, or a leading byte from 194 on followed by
    continuation bytes, which are those from 128 to 191. *)
Definition continuation (b : Ascii.ascii) : bool :=
  (128 <=? Ascii.N_of_ascii b)%N && (Ascii.N_of_ascii b <? 192)%N.

(** [s[:n]] for a string and [n] not negative: the first [n] characters. *)
Fixpoint str_slice_to (s : string) (n : nat) : string :=
  match s with
  | EmptyString => EmptyString
  | String b s =>
      if continuation b then String b (str_slice_to s n)
      else
        match n with
        | O => EmptyString
        | S n => String b (str_slice_to s n)
        end
  end.

(** Whether [s.encode('latin-1', 'strict')] returns: every character is
    below 256, which is to say that no byte is above 195, the leading
    byte of the characters from 192 to 255. *)
Fixpoint latin_1 (s : string) : bool :=
  match s with
  | EmptyString => true
  | String b s => (Ascii.N_of_ascii b <? 196)%N && latin_1 s
  end.

End Py.

(** ** spotify_client.py *)

Module Client.

Local Open Scope Z_scope.

(** The query sent by [requests.get]: the item type is part of the URL,
    the three others are the [params] dictionary. *)
Record request := Request {
  item_type : string;
  time_range : string;
  limit : Z;
  offset : Z
}.

(** Exceptions that reach [get_all_top_items].  [sys.exit(1)] raises
    [SystemExit], which derives from [BaseException] and not from
    [Exception]; [AttributeError] is what [data.get] raises when the
    decoded body is not a JSON object. *)
Inductive exn :=
| SystemExit (code : Z)
| AttributeError.

(** [isinstance(e, Exception)], the test made by [except Exception]. *)
Definition is_Exception (e : exn) : bool :=
  match e with
  | SystemExit _ => false
  | AttributeError => true
  end.

Inductive result (A : Type) :=
| Return (a : A)
| Raise (e : exn).
Arguments Return {A} a.
Arguments Raise {A} e.

(** Lines printed by the client. *)
Inductive message :=
| Fetching (item_type time_range : string)
| Progress (fetched : nat) (total : Z)
| Error401
| Error403
| Error429
| ErrorHTTP (status_code : Z)
| ErrorConnection
| FailedAtOffset (offset : Z) (e : exn).

(** What the process does, in order: requests sent and lines printed. *)
Inductive event :=
| Get (r : request)
| Print (m : message).

Definition world := list event.

Definition requests (w : world) : list request :=
  omap (λ e, match e with Get r => Some r | Print _ => None end) w.

Definition log (w : world) : list message :=
  omap (λ e, match e with Print m => Some m | Get _ => None end) w.

Definition send (r : request) (w : world) : world := w ++ [Get r].
Definition print (m : message) (w : world) : world := w ++ [Print m].

(** What a fetch that started in the world [w0] has come to when every
    request [q] it has sent is followed by the line [m], the calls that
    are still [pending] apart. *)
Definition answered (q : request) (m : message) (w0 : world) (pending : list request)
    (w : world) : Prop :=
  ∃ added, w = w0 ++ added
    ∧ ∀ a b, added = a ++ Get q :: b → q ∈ pending ∨ Print m ∈ b.

Section Items.

(** The track and artist objects are opaque to the fetcher. *)
Context {item : Type}.

(** The decoded body of a response: a JSON object, whose ["items"] and
    ["total"] members may be missing, or any other JSON value. *)
Inductive json :=
| JObject (items : option (list item)) (total : option Z)
| JOther.

(** The outcome of [requests.get]: a response with its status code, or
    a network-level [RequestException]. *)
Inductive reply :=
| Response (status_code : Z) (body : json)
| RequestException.

(** [response.raise_for_status()] raises for 4xx and 5xx. *)
Definition raise_for_status (status_code : Z) : bool :=
  (400 <=? status_code) && (status_code <? 600).

(** The [params] built by [get_top_items]. *)
Definition get_top_items_request
    (item_type time_range : string) (limit offset : Z) : request :=
  Request item_type time_range (Z.min limit 50) offset.

(** The [try] block of [get_top_items] once [requests.get] has come
    back: every failure prints its line and calls [sys.exit(1)]. *)
Definition get_top_items_reply (rp : reply) (w : world) : world * result json :=
  match rp with
  | Response status_code body =>
      if raise_for_status status_code then
        let m :=
          if status_code =? 401 then Error401
          else if status_code =? 403 then Error403
          else if status_code =? 429 then Error429
          else ErrorHTTP status_code in
        (print m w, Raise (SystemExit 1))
      else (w, Return body)
  | RequestException => (print ErrorConnection w, Raise (SystemExit 1))
  end.

(** [data.get("items", [])] *)
Definition get_items (data : json) : result (list item) :=
  match data with
  | JObject items _ => Return (default [] items)
  | JOther => Raise AttributeError
  end.

(** Two observations on replies, used to state the properties below:
    a reply that makes [get_top_items] call [sys.exit(1)], and the
    number of items of a page that came back as a JSON object. *)
Definition exits (rp : reply) : bool :=
  match rp with
  | Response status_code _ => raise_for_status status_code
  | RequestException => true
  end.

Definition page_size (rp : reply) : option nat :=
  match rp with
  | Response status_code (JObject items _) =>
      if raise_for_status status_code then None else Some (length (default [] items))
  | _ => None
  end.

Section Fetch.

(** The remote API. *)
Variable server : request → reply.

Definition get_top_items
    (item_type time_range : string) (limit offset : Z) (w : world)
    : world * result json :=
  let r := get_top_items_request item_type time_range limit offset in
  get_top_items_reply (server r) (send r w).

Variables (it tr : string).

(** The sequential loop of [get_all_top_items]; nothing is caught. *)
Fixpoint fetch_sequential (total : Z) (offsets : list Z)
    (all_items : list item) (w : world) : world * result (list item) :=
  match offsets with
  | [] => (w, Return all_items)
  | offset :: offsets =>
      let current_limit := Z.min 50 (total - offset) in
      match get_top_items it tr current_limit offset w with
      | (w, Raise e) => (w, Raise e)
      | (w, Return data) =>
          match get_items data with
          | Raise e => (w, Raise e)
          | Return items =>
              let all_items := all_items ++ items in
              fetch_sequential total offsets all_items
                (print (Progress (length all_items) total) w)
          end
      end
  end.

(** *** The thread pool

    [executor.submit] queues one call of [get_top_items] per offset,
    with its arguments already evaluated.  A worker that is free takes
    the oldest queued call and sends its request ([Start]); the reply
    of a call in flight comes back and the rest of [get_top_items]
    runs in the worker, which stores the value or the exception in the
    future ([Finish]); the main thread takes a finished future from
    [as_completed] ([Yield]).  Which of these happens next is not
    decided by the program: an execution is a list of such actions. *)

Definition max_workers : nat := 10.

Inductive action :=
| Start
| Finish (i : nat)
| Yield (j : nat).

(** The main thread is either in the [for future in as_completed]
    loop, or it has left it with an exception and waits in the
    [__exit__] of the executor, which joins the workers. *)
Inductive main_thread :=
| Collecting (all_items : list item)
| Propagating (e : exn).

Record pool := Pool {
  work_queue : list (Z * Z);
  in_flight : list (Z * Z);
  finished : list (Z * result json);
  main : main_thread;
  env : world
}.

Definition step (total : Z) (a : action) (p : pool) : option pool :=
  match a with
  | Start =>
      match work_queue p with
      | (current_limit, offset) :: queue =>
          if decide (length (in_flight p) < max_workers)%nat then
            Some (Pool queue (in_flight p ++ [(current_limit, offset)])
                    (finished p) (main p)
                    (send (get_top_items_request it tr current_limit offset) (env p)))
          else None
      | [] => None
      end
  | Finish i =>
      match in_flight p !! i with
      | Some (current_limit, offset) =>
          let '(w, r) :=
            get_top_items_reply
              (server (get_top_items_request it tr current_limit offset)) (env p) in
          Some (Pool (work_queue p) (delete i (in_flight p))
                  (finished p ++ [(offset, r)]) (main p) w)
      | None => None
      end
  | Yield j =>
      match main p, finished p !! j with
      | Collecting all_items, Some (offset, r) =>
          let rest := delete j (finished p) in
          let items := match r with Return data => get_items data | Raise e => Raise e end in
          match items with
          | Return items =>
              let all_items := all_items ++ items in
              Some (Pool (work_queue p) (in_flight p) rest (Collecting all_items)
                      (print (Progress (length all_items) total) (env p)))
          | Raise e =>
              if is_Exception e then
                Some (Pool (work_queue p) (in_flight p) rest (Collecting all_items)
                        (print (FailedAtOffset offset e) (env p)))
              else
                Some (Pool (work_queue p) (in_flight p) rest (Propagating e) (env p))
          end
      | _, _ => None
      end
  end.

Fixpoint run (total : Z) (sch : list action) (p : pool) : option pool :=
  match sch with
  | [] => Some p
  | a :: sch =>
      match step total a p with
      | Some p => run total sch p
      | None => None
      end
  end.

(** The [with] block is left when no call is queued or in flight and
    the main thread has either consumed every future or is
    propagating an exception. *)
Definition quiescent (p : pool) : bool :=
  match work_queue p, in_flight p, main p, finished p with
  | [], [], Collecting _, [] => true
  | [], [], Propagating _, _ => true
  | _, _, _, _ => false
  end.

(** The request sent by a queued call [(current_limit, offset)]. *)
Definition task_request (t : Z * Z) : request :=
  get_top_items_request it tr t.1 t.2.

(** The calls submitted for the remaining pages. *)
Definition submitted (total : Z) (offsets : list Z) : list (Z * Z) :=
  (λ offset, (Z.min 50 (total - offset), offset)) <$> offsets.

(** The parallel branch: all calls are submitted, then the futures are
    collected.  A schedule that is not a complete execution of the
    block gives [None]. *)
Definition fetch_parallel (total : Z) (offsets : list Z)
    (all_items : list item) (sch : list action) (w : world)
    : option (world * result (list item)) :=
  match run total sch (Pool (submitted total offsets) [] [] (Collecting all_items) w) with
  | Some p =>
      if quiescent p then
        Some (env p,
              match main p with
              | Collecting all_items => Return all_items
              | Propagating e => Raise e
              end)
      else None
  | None => None
  end.

Definition get_all_top_items (max_items : option Z) (parallel : bool)
    (sch : list action) (w : world) : option (world * result (list item)) :=
  let w := print (Fetching it tr) w in
  match get_top_items it tr 50 0 w with
  | (w, Raise e) => Some (w, Raise e)
  | (w, Return first_data) =>
      match first_data with
      | JOther => Some (w, Raise AttributeError)
      | JObject items total =>
          let all_items := default [] items in
          let total := default 0 total in
          let w := print (Progress (length all_items) total) w in
          let total :=
            if Py.truthy_int max_items then Z.min total (default 0 max_items)
            else total in
          let remaining := total - Z.of_nat (length all_items) in
          if remaining <=? 0 then Some (w, Return all_items)
          else
            let offsets := Py.range 50 total 50 in
            let fetched :=
              if negb parallel || (length offsets =? 0)%nat then
                Some (fetch_sequential total offsets all_items w)
              else fetch_parallel total offsets all_items sch w in
            match fetched with
            | Some (w, Return all_items) => Some (w, Return (Py.slice_to all_items total))
            | Some (w, Raise e) => Some (w, Raise e)
            | None => None
            end
      end
  end.

(** *** Measures and invariants of the pool

    What is left to do before the [with] block can be left. *)
Definition todo (p : pool) : nat :=
  (3 * length (work_queue p) + 2 * length (in_flight p)
   + match main p with Collecting _ => length (finished p) | Propagating _ => 0 end)%nat.

(** The number of items a queued call will bring, and the number a
    finished future holds. *)
Definition expected (t : Z * Z) : nat :=
  default 0%nat (page_size (server (task_request t))).

Definition held (f : Z * result json) : nat :=
  match f.2 with
  | Return (JObject items _) => length (default [] items)
  | _ => 0%nat
  end.

(** Every page comes back as a JSON object, and [n] items are held by the
    main thread, by the finished futures and by the calls still to come. *)
Definition all_pages_ok (n : nat) (p : pool) : Prop :=
  Forall (λ t, is_Some (page_size (server (task_request t)))) (work_queue p ++ in_flight p)
  ∧ Forall (λ f : Z * result json, ∃ items total, f.2 = Return (JObject items total)) (finished p)
  ∧ ∃ all_items, main p = Collecting all_items
      ∧ (length all_items + sum_list_with held (finished p)
         + sum_list_with expected (work_queue p ++ in_flight p))%nat = n.

(** The only exception a future or the main thread holds is the
    [SystemExit(1)] of [get_top_items]. *)
Definition sane (p : pool) : Prop :=
  Forall (λ f : Z * result json, ∀ e, f.2 = Raise e → e = SystemExit 1) (finished p)
  ∧ ∀ e, main p = Propagating e → e = SystemExit 1.

(** A call that exits is queued or in flight, or its future waits for the
    main thread, or the main thread has met it. *)
Definition doomed (p : pool) : Prop :=
  (∃ t, t ∈ work_queue p ++ in_flight p ∧ exits (server (task_request t)) = true)
  ∨ (∃ offset all_items,
        (offset, Raise (SystemExit 1)) ∈ finished p ∧ main p = Collecting all_items)
  ∨ main p = Propagating (SystemExit 1).

End Fetch.

End Items.

Arguments json : clear implicits.
Arguments reply : clear implicits.
Arguments pool : clear implicits.
Arguments main_thread : clear implicits.

End Client.

(** ** spotify_auth.py *)

Module Auth.

Local Open Scope Z_scope.

(** Values found in the token dictionaries (the token endpoint answers
    with a flat JSON object). *)
Inductive jval :=
| JNull
| JBool (b : bool)
| JNum (n : Z)
| JStr (s : string).

(** Python truth value, as tested by [if] and [or]. *)
Definition truthy (v : jval) : bool :=
  match v with
  | JNull => false
  | JBool b => b
  | JNum n => negb (n =? 0)
  | JStr s => negb (String.eqb s "")
  end.

Abbreviation tokens := (gmap string jval).

(** The exceptions of this module; all of them derive from [Exception]. *)
Inductive exn :=
| HTTPError (status_code : Z)
| ConnectionError
| KeyError (key : string)
| TypeError
| UnicodeEncodeError.

Inductive result (A : Type) :=
| Return (a : A)
| Raise (e : exn).
Arguments Return {A} a.
Arguments Raise {A} e.

(** The form posted to [TOKEN_URL]. *)
Inductive token_request :=
| AuthorizationCode (code : string)
| RefreshToken (refresh_token : jval).

Inductive reply :=
| Response (status_code : Z) (body : tokens)
| RequestException.

Inductive message :=
| MissingCredentials
| TokensSaved
| Refreshing
| Refreshed
| CouldNotRefresh (e : exn)
| StartingNewFlow
| AuthBanner
| WaitingForAuthentication
| AuthSuccessful
| ShowAccessToken (shown : string)
| ShowRefreshToken (shown : string)
| ErrorGettingTokens (e : exn)
| AuthenticationError (error : string).

(** What the process does: forms posted, lines printed, status lines
    sent to the browser, and the traceback that [socketserver] writes to
    the standard error when a handler raises (the connection is then
    closed without an answer). *)
Inductive event :=
| Post (r : token_request)
| Print (m : message)
| Respond (status_code : Z)
| OpenBrowser
| Traceback (e : exn).

(** The token file and what the process has done so far. *)
Record world := World {
  token_file : option tokens;
  trace : list event
}.

Definition emit (e : event) (w : world) : world :=
  World (token_file w) (trace w ++ [e]).

(** Computations that change the world and may raise. *)
Definition M (A : Type) : Type := world → world * result A.

#[global] Instance M_ret : MRet M := λ A a w, (w, Return a).
#[global] Instance M_bind : MBind M := λ A B f m w,
  match m w with
  | (w, Return a) => f a w
  | (w, Raise e) => (w, Raise e)
  end.

Definition raise {A} (e : exn) : M A := λ w, (w, Raise e).
Definition act (e : event) : M () := λ w, (emit e w, Return ()).
Definition print (m : message) : M () := act (Print m).

(** [d[key]] *)
Definition subscript (d : tokens) (key : string) : M jval :=
  match d !! key with
  | Some v => mret v
  | None => raise (KeyError key)
  end.

(** [v[:20]], as applied to a token before printing it. *)
Definition first20 (v : jval) : M string :=
  match v with
  | JStr s => mret (Py.str_slice_to s 20)
  | _ => raise TypeError
  end.

Definition raise_for_status (status_code : Z) : bool :=
  (400 <=? status_code) && (status_code <? 600).

Section Flow.

(** The authorization server's token endpoint. *)
Variable token_endpoint : token_request → reply.

(** [requests.post], [raise_for_status], [response.json()]. *)
Definition post (r : token_request) : M tokens :=
  act (Post r);;
  match token_endpoint r with
  | Response status_code body =>
      if raise_for_status status_code then raise (HTTPError status_code)
      else mret body
  | RequestException => raise ConnectionError
  end.

Definition get_tokens_from_code (code : string) : M tokens :=
  post (AuthorizationCode code).

Definition refresh_access_token (refresh_token : jval) : M tokens :=
  post (RefreshToken refresh_token).

(** [save_tokens] updates the dictionary it is given and writes it to
    the token file; the updated dictionary is what the caller holds
    afterwards. *)
Definition save_tokens (t : tokens) : M tokens := λ w,
  let t := <["expires_at" := default (JNum 3600) (t !! "expires_in")]> t in
  (emit (Print TokensSaved) (World (Some t) (trace w)), Return t).

Definition load_tokens (w : world) : tokens := default ∅ (token_file w).

(** The query of a callback as decoded by [parse_qs], which gives every
    key the non-empty list of its values: first value and the others. *)
Abbreviation params := (gmap string (string * list string)).

(** The [try] block of [do_GET] for a request that bears a code, up to
    the assignment of [should_stop]. *)
Definition do_GET_code (code : string) : M () :=
  t ← get_tokens_from_code code;
  t ← save_tokens t;
  act (Respond 200);;
  print AuthSuccessful;;
  a ← subscript t "access_token";
  shown ← first20 a;
  print (ShowAccessToken shown);;
  match t !! "refresh_token" with
  | Some r => shown ← first20 r; print (ShowRefreshToken shown)
  | None => mret ()
  end.

(** [do_GET]: the new value of [server.should_stop] and the new world.
    [send_error] puts its message in the status line, which
    [send_response_only] encodes with ['latin-1'] and ['strict'] before
    anything is sent: in the [error] branch the message holds a value of
    the query, and when this cannot be encoded the handler ends there
    with [UnicodeEncodeError], which [handle_request] reports and drops. *)
Definition do_GET (p : params) (should_stop : bool) (w : world) : bool * world :=
  match p !! "code" with
  | Some (code, _) =>
      match do_GET_code code w with
      | (w, Return _) => (true, w)
      | (w, Raise e) =>
          (should_stop, emit (Respond 500) (emit (Print (ErrorGettingTokens e)) w))
      end
  | None =>
      match p !! "error" with
      | Some (error, _) =>
          if Py.latin_1 error then
            (true, emit (Print (AuthenticationError error)) (emit (Respond 400) w))
          else (should_stop, emit (Traceback UnicodeEncodeError) w)
      | None => (should_stop, emit (Respond 400) w)
      end
  end.

(** [serve_forever]: [handle_request] is called until [should_stop] is
    set.  With the callbacks received so far, the loop has either
    stopped (leaving the later ones unanswered) or is blocked in
    [handle_request], waiting for the next. *)
Fixpoint serve_forever (incoming : list params) (should_stop : bool) (w : world)
    : bool * world * list params :=
  if should_stop then (true, w, incoming)
  else
    match incoming with
    | [] => (false, w, [])
    | p :: incoming =>
        let '(should_stop, w) := do_GET p should_stop w in
        serve_forever incoming should_stop w
    end.

(** A call either returns or is still blocked in the listener. *)
Inductive outcome (A : Type) :=
| Done (a : A) (w : world)
| Blocked (w : world).
Arguments Done {A} a w.
Arguments Blocked {A} w.

Definition start_auth_flow (incoming : list params) (w : world) : outcome () :=
  let w := emit (Print AuthBanner) w in
  let w := emit OpenBrowser w in
  let w := emit (Print WaitingForAuthentication) w in
  match serve_forever incoming false w with
  | (true, w, _) => Done () w
  | (false, w, _) => Blocked w
  end.

(** The environment read by [get_valid_token]. *)
Record environ := Environ {
  SPOTIFY_CLIENT_ID : option string;
  SPOTIFY_CLIENT_SECRET : option string;
  SPOTIFY_REFRESH_TOKEN : option string
}.

(** The [try] block of [get_valid_token]. *)
Definition refresh_stored (refresh_token : option string) (t : tokens) : M jval :=
  print Refreshing;;
  refresh_tok ←
    (if Py.truthy_str refresh_token then mret (JStr (default "" refresh_token))
     else subscript t "refresh_token");
  new_tokens ← refresh_access_token refresh_tok;
  let new_tokens :=
    match new_tokens !! "refresh_token" with
    | None => <["refresh_token" := refresh_tok]> new_tokens
    | Some _ => new_tokens
    end in
  new_tokens ← save_tokens new_tokens;
  print Refreshed;;
  subscript new_tokens "access_token".

(** The end of [get_valid_token]: the interactive flow, then the access
    token is read back from the token file. *)
Definition authenticate (incoming : list params) (w : world) : outcome (option jval) :=
  match start_auth_flow incoming w with
  | Done _ w => Done (load_tokens w !! "access_token") w
  | Blocked w => Blocked w
  end.

Definition get_valid_token (e : environ) (incoming : list params) (w : world)
    : outcome (option jval) :=
  if negb (Py.truthy_str (SPOTIFY_CLIENT_ID e))
     || negb (Py.truthy_str (SPOTIFY_CLIENT_SECRET e)) then
    Done None (emit (Print MissingCredentials) w)
  else
    let t := load_tokens w in
    if Py.truthy_str (SPOTIFY_REFRESH_TOKEN e)
       || from_option truthy false (t !! "refresh_token") then
      match refresh_stored (SPOTIFY_REFRESH_TOKEN e) t w with
      | (w, Return access_token) => Done (Some access_token) w
      | (w, Raise exc) =>
          authenticate incoming
            (emit (Print StartingNewFlow) (emit (Print (CouldNotRefresh exc)) w))
      end
    else authenticate incoming w.

End Flow.

Arguments Done {A} a w.
Arguments Blocked {A} w.

(** *** What the statements below observe *)

(** The exception [requests.post] or [raise_for_status] raises for a reply. *)
Definition post_failure (rp : reply) : option exn :=
  match rp with
  | Response status_code _ =>
      if raise_for_status status_code then Some (HTTPError status_code) else None
  | RequestException => Some ConnectionError
  end.

(** The refresh token [get_valid_token] goes by: the one of the
    environment when there is one, else the one of the token file. *)
Definition available (refresh_token : option string) (t : tokens) : option jval :=
  if Py.truthy_str refresh_token then Some (JStr (default "" refresh_token))
  else match t !! "refresh_token" with
       | Some v => if truthy v then Some v else None
       | None => None
       end.

(** The record written by [save_tokens]. *)
Definition saved (t : tokens) : tokens :=
  <["expires_at" := default (JNum 3600) (t !! "expires_in")]> t.

(** The record that a refresh persists: the response, completed with the
    token that was used when it brings none. *)
Definition merged (prior : jval) (body : tokens) : tokens :=
  match body !! "refresh_token" with
  | None => <["refresh_token" := prior]> body
  | Some _ => body
  end.

(** A token that [do_GET] can print. *)
Definition printable (v : option jval) : Prop :=
  match v with
  | Some (JStr _) => True
  | _ => False
  end.

(** The lines [do_GET] prints for tokens it can print: the first twenty
    characters of the access token, and those of the refresh token when
    the response brings one. *)
Definition shown_tokens (t : tokens) : list event :=
  match t !! "access_token" with
  | Some (JStr a) =>
      Print (ShowAccessToken (Py.str_slice_to a 20))
      :: match t !! "refresh_token" with
         | Some (JStr r) => [Print (ShowRefreshToken (Py.str_slice_to r 20))]
         | _ => []
         end
  | _ => []
  end.

(** The world in which a call ended or is blocked. *)
Definition outcome_world {A} (o : outcome A) : world :=
  match o with
  | Done _ w => w
  | Blocked w => w
  end.

End Auth.

(** ** Remote APIs used as concrete inputs *)

Module Scenario.

Import Client.
Local Open Scope Z_scope.

(** An API that holds [total] items, numbered from 0, and answers every
    request with the items it asks for. *)
Definition api (total : Z) (r : request) : reply Z :=
  Response 200
    (JObject (Some (seqZ (offset r) (Z.min (limit r) (total - offset r)))) (Some total)).

(** The same API, except that the request at offset [bad] gets [rp]. *)
Definition api_failing_at (bad : Z) (rp : reply Z) (total : Z) (r : request) : reply Z :=
  if offset r =? bad then rp else api total r.

End Scenario.

(** ** What further statements on the fetcher observe *)

Module Pages.

Import Client.
Local Open Scope Z_scope.

(** The total that [get_all_top_items] goes by: the declared one, capped
    by [max_items] when this is given and not zero. *)
Definition capped (max_items : option Z) (total : Z) : Z :=
  if Py.truthy_int max_items then Z.min total (default 0 max_items) else total.

(** The parameters the API documents: a limit from 1 to 50 and an offset
    that is not negative. *)
Definition well_formed (it tr : string) (r : request) : Prop :=
  item_type r = it ∧ time_range r = tr ∧ 1 ≤ limit r ≤ 50 ∧ 0 ≤ offset r.

Section Items.

Context {item : Type}.

(** The items a reply adds to the accumulator: those of a JSON object
    that came with a good status, none otherwise. *)
Definition page_items (rp : reply item) : list item :=
  match rp with
  | Response status_code (JObject items _) =>
      if raise_for_status status_code then [] else default [] items
  | _ => []
  end.

(** A reply with a good status whose body is not a JSON object. *)
Definition not_an_object (rp : reply item) : bool :=
  match rp with
  | Response status_code JOther => negb (raise_for_status status_code)
  | _ => false
  end.

(** The items a finished future will add. *)
Definition future_items (f : Z * result (json item)) : list item :=
  match f.2 with
  | Return (JObject items _) => default [] items
  | _ => []
  end.

(** An API over a fixed collection, which answers a request with the
    slice it asks for and declares the size of the collection. *)
Definition paginate (collection : list item) (r : request) : reply item :=
  Response 200
    (JObject (Some (take (Z.to_nat (limit r)) (drop (Z.to_nat (offset r)) collection)))
       (Some (Z.of_nat (length collection)))).

Section Fetch.

Variable server : request → reply item.
Variables (it tr : string).

(** The calls that a fetch of [total] items plans after its first page. *)
Definition planned (total : Z) : list (Z * Z) :=
  submitted total (Py.range 50 total 50).

Definition task_items (t : Z * Z) : list item :=
  page_items (server (task_request it tr t)).

(** No call exits; the main thread holds the first page followed by
    [more], and [more], the items of the finished futures and those of
    the calls still to come make up [pages], in some order. *)
Definition gathering (first_page pages : list item) (p : pool item) : Prop :=
  Forall (λ t, exits (server (task_request it tr t)) = false) (work_queue p ++ in_flight p)
  ∧ Forall (λ f : Z * result (json item), ∃ data, f.2 = Return data) (finished p)
  ∧ ∃ more, main p = Collecting (first_page ++ more)
      ∧ more ++ (finished p ≫= future_items)
             ++ ((work_queue p ++ in_flight p) ≫= task_items) ≡ₚ pages.

(** The page at [offset], whose body is not an object, is still to be
    fetched or collected, or its failure has been printed. *)
Definition reporting (offset : Z) (p : pool item) : Prop :=
  (∃ current_limit, (current_limit, offset) ∈ work_queue p ++ in_flight p
     ∧ not_an_object (server (task_request it tr (current_limit, offset))) = true)
  ∨ (offset, Return JOther) ∈ finished p
  ∨ Print (FailedAtOffset offset AttributeError) ∈ env p.

(** The main thread holds a list that starts with the first page. *)
Definition first_page_in_front (first_page : list item) (p : pool item) : Prop :=
  match main p with
  | Collecting all_items => first_page `prefix_of` all_items
  | Propagating _ => True
  end.

End Fetch.

End Items.

End Pages.

(** ** spotify_client.py: [clean_track_data] *)

Module Tracks.

(** JSON values as [json.load] gives them; the numbers of the track
    objects play no part and are kept as integers. *)
#[warnings="-register-all"]
Inductive json :=
| JNull
| JBool (b : bool)
| JNum (n : Z)
| JStr (s : string)
| JList (l : list json)
| JDict (d : gmap string json).

(** The body of the loop: the copy of the track without its
    ["available_markets"], and with a copy of its album without them when
    the album is a dictionary.  The copies are shallow, and the finite
    maps do not record the order of the keys. *)
Definition clean_track (track : gmap string json) : gmap string json :=
  let cleaned_track := delete "available_markets" track in
  match cleaned_track !! "album" with
  | Some (JDict album) =>
      <["album" := JDict (delete "available_markets" album)]> cleaned_track
  | _ => cleaned_track
  end.

Definition clean_track_data (tracks : list (gmap string json)) (keep_markets : bool)
    : list (gmap string json) :=
  if keep_markets then tracks else clean_track <$> tracks.

(** A track that carries no ["available_markets"], nor does its album. *)
Definition market_free (track : gmap string json) : Prop :=
  track !! "available_markets" = None
  ∧ ∀ album, track !! "album" = Some (JDict album) → album !! "available_markets" = None.

End Tracks.

(** ** What further statements on the listener observe *)

Module Callbacks.

(** A callback that bears neither a code nor an error. *)
Definition malformed (p : gmap string (string * list string)) : Prop :=
  p !! "code" = None ∧ p !! "error" = None.

(** The answers given to [n] such callbacks. *)
Definition refusals (n : nat) : list Auth.event := replicate n (Auth.Respond 400).

(** What the interactive flow does before it listens. *)
Definition opening : list Auth.event :=
  [Auth.Print Auth.AuthBanner; Auth.OpenBrowser; Auth.Print Auth.WaitingForAuthentication].

End Callbacks.

(** * Properties of the built-ins *)

Module PyFacts.

Local Open Scope Z_scope.

Lemma range_50_nil (total : Z) : total ≤ 50 → Py.range 50 total 50 = [].
Proof.
  intros H. unfold Py.range.
  assert ((total - 50 + 50 - 1) `div` 50 < 1) by (apply Z.div_lt_upper_bound; lia).
  by replace (Z.to_nat ((total - 50 + 50 - 1) `div` 50)) with 0%nat by lia.
Qed.

Lemma range_50_cons (total : Z) :
  50 < total → ∃ offsets, Py.range 50 total 50 = 50 :: offsets.
Proof.
  intros H. unfold Py.range.
  assert (1 ≤ (total - 50 + 50 - 1) `div` 50) by (apply Z.div_le_lower_bound; lia).
  destruct (Z.to_nat ((total - 50 + 50 - 1) `div` 50)) as [|n] eqn:E; [lia|].
  simpl. eauto.
Qed.

Lemma slice_to_all {A} (l : list A) (n : Z) :
  Z.of_nat (length l) ≤ n → Py.slice_to l n = l.
Proof.
  intros H. unfold Py.slice_to.
  destruct (n <? 0) eqn:E; [lia|]. apply take_ge. lia.
Qed.

Lemma slice_to_length {A} (l : list A) (n : Z) :
  0 ≤ n → Z.of_nat (length (Py.slice_to l n)) ≤ n.
Proof.
  intros H. unfold Py.slice_to.
  destruct (n <? 0) eqn:E; [lia|]. rewrite length_take. lia.
Qed.

End PyFacts.

(** * Properties of the fetcher *)

Module ClientFacts.

Import Client.
Local Open Scope Z_scope.

Lemma requests_app (w1 w2 : world) : requests (w1 ++ w2) = requests w1 ++ requests w2.
Proof. unfold requests. apply omap_app. Qed.

Lemma requests_send r w : requests (send r w) = requests w ++ [r].
Proof. unfold send. by rewrite requests_app. Qed.

Lemma requests_print m w : requests (print m w) = requests w.
Proof. unfold print. rewrite requests_app. simpl. by rewrite app_nil_r. Qed.

Lemma elem_of_delete_one {A} (l : list A) i x y :
  l !! i = Some y → x ∈ l → x = y ∨ x ∈ delete i l.
Proof.
  intros Hi Hx. rewrite (delete_Permutation l i y Hi) in Hx.
  by apply elem_of_cons in Hx.
Qed.

(** **** The line of a 401 follows its request

    A reply with status 401 prints its line as soon as it comes back:
    a request answered that way is either still in flight or followed by
    the line, at every point of a fetch. *)

Lemma snoc_eq_middle {A} (l a b : list A) (e x : A) :
  l ++ [e] = a ++ x :: b →
  (b = [] ∧ a = l ∧ x = e) ∨ ∃ b0, b = b0 ++ [e] ∧ l = a ++ x :: b0.
Proof.
  destruct b as [|y b _] using rev_ind.
  - intros H. apply app_inj_tail in H as [-> ->]. by left.
  - intros H. rewrite app_comm_cons, app_assoc in H.
    apply app_inj_tail in H as [-> ->]. right. eauto.
Qed.

Lemma elem_of_requests (q : request) (w : world) : q ∈ requests w → Get q ∈ w.
Proof.
  unfold requests. intros ([q'|m] & Hin & Hq)%list_elem_of_omap; [|done].
  by injection Hq as ->.
Qed.

Lemma answered_refl q m w : answered q m w [] w.
Proof.
  exists []. split; [by rewrite app_nil_r|]. intros a b H. by destruct a.
Qed.

Lemma answered_print q m w0 pending w m' :
  answered q m w0 pending w → answered q m w0 pending (print m' w).
Proof.
  intros (d & -> & H). exists (d ++ [Print m']).
  split; [unfold print; by rewrite app_assoc|].
  intros a b Hd. apply snoc_eq_middle in Hd as [(_ & _ & Heq)|(b0 & -> & Hd)]; [done|].
  destruct (H a b0 Hd) as [?|?]; [by left|right]. apply elem_of_app. by left.
Qed.

Lemma answered_send q m w0 pending w q' :
  answered q m w0 pending w → answered q m w0 (pending ++ [q']) (send q' w).
Proof.
  intros (d & -> & H). exists (d ++ [Get q']).
  split; [unfold send; by rewrite app_assoc|].
  intros a b Hd. apply snoc_eq_middle in Hd as [(_ & _ & Heq)|(b0 & -> & Hd)].
  - injection Heq as ->. left. apply elem_of_app. right. by apply list_elem_of_singleton.
  - destruct (H a b0 Hd) as [?|?]; [left|right]; apply elem_of_app; by left.
Qed.

Lemma answered_last q m w0 pending w :
  answered q m w0 pending w → answered q m w0 [] (print m w).
Proof.
  intros (d & -> & H). exists (d ++ [Print m]).
  split; [unfold print; by rewrite app_assoc|].
  intros a b Hd. apply snoc_eq_middle in Hd as [(_ & _ & Heq)|(b0 & -> & Hd)]; [done|].
  right. apply elem_of_app. right. by apply list_elem_of_singleton.
Qed.

Lemma answered_weaken q m w0 pending pending' w :
  (q ∈ pending → q ∈ pending') →
  answered q m w0 pending w → answered q m w0 pending' w.
Proof.
  intros Hsub (d & -> & H). exists d. split; [done|].
  intros a b Hd. destruct (H a b Hd); auto.
Qed.

Section Items.

Context {item : Type}.
Implicit Types (rp : reply item) (data : json item) (w : world).

Lemma reply_requests rp w : requests (get_top_items_reply rp w).1 = requests w.
Proof.
  destruct rp as [s body|]; simpl; [|apply requests_print].
  destruct (raise_for_status s); simpl; [apply requests_print|done].
Qed.

Lemma reply_exits rp w :
  exits rp = true →
  ∃ m, get_top_items_reply rp w = (print m w, Raise (SystemExit 1)).
Proof.
  destruct rp as [s body|]; simpl; [intros ->|]; eauto.
Qed.

Lemma reply_returns s data w :
  raise_for_status s = false →
  get_top_items_reply (Response s data) w = (w, Return data).
Proof. simpl. by intros ->. Qed.

Lemma reply_raise_SystemExit rp w w' e :
  get_top_items_reply rp w = (w', Raise e) → e = SystemExit 1.
Proof.
  destruct rp as [s body|]; simpl; [destruct (raise_for_status s)|]; congruence.
Qed.

Section Fetch.

Variable server : request → reply item.
Variables (it tr : string).

Lemma get_top_items_requests limit offset w :
  requests (get_top_items server it tr limit offset w).1
  = requests w ++ [get_top_items_request it tr limit offset].
Proof. unfold get_top_items. by rewrite reply_requests, requests_send. Qed.

(** **** The requests of the pool

    A step never drops a queued call: the requests sent so far,
    followed by those of the calls still queued, never change. *)

Lemma step_requests total a p p' :
  step server it tr total a p = Some p' →
  requests (env p') ++ (task_request it tr <$> work_queue p')
  = requests (env p) ++ (task_request it tr <$> work_queue p).
Proof.
  destruct a as [|i|j]; simpl.
  - destruct (work_queue p) as [|[l o] q]; [done|].
    case_decide; [|done]. intros [= <-]; simpl.
    by rewrite requests_send, <- app_assoc.
  - destruct (in_flight p !! i) as [[l o]|]; [|done].
    destruct (get_top_items_reply _ _) as [w r] eqn:E.
    intros [= <-]; simpl.
    pose proof (reply_requests (server (get_top_items_request it tr l o)) (env p)) as H.
    rewrite E in H. simpl in H. by rewrite H.
  - destruct (main p) as [all_items|e]; [|done].
    destruct (finished p !! j) as [[o r]|]; [|done].
    destruct (match r with Return data => get_items data | Raise e => Raise e end)
      as [items|e]; [|destruct (is_Exception e)];
      intros [= <-]; simpl; by rewrite ?requests_print.
Qed.

Lemma run_requests total sch p p' :
  run server it tr total sch p = Some p' →
  requests (env p') ++ (task_request it tr <$> work_queue p')
  = requests (env p) ++ (task_request it tr <$> work_queue p).
Proof.
  revert p. induction sch as [|a sch IH]; intros p; simpl.
  - by intros [= <-].
  - destruct (step server it tr total a p) as [p1|] eqn:E; [|done].
    intros H. rewrite (IH _ H). by apply step_requests in E.
Qed.

Lemma quiescent_idle (p : pool item) :
  quiescent p = true → work_queue p = [] ∧ in_flight p = [].
Proof.
  unfold quiescent.
  destruct (work_queue p), (in_flight p), (main p), (finished p); done.
Qed.

(** **** Every pool can be run to the end of the [with] block *)

Lemma run_complete_exists total n p :
  (todo p ≤ n)%nat →
  ∃ sch p', run server it tr total sch p = Some p' ∧ quiescent p' = true.
Proof.
  revert p. induction n as [|n IH]; intros [q fl fin m w]; unfold todo; simpl; intros Hn.
  - exists [], (Pool q fl fin m w). split; [done|].
    destruct q, fl; simpl in *; try lia.
    destruct m, fin; simpl in *; done || lia.
  - assert (Hstep : ∀ a p1, step server it tr total a (Pool q fl fin m w) = Some p1 →
              (todo p1 ≤ n)%nat →
              ∃ sch p', run server it tr total sch (Pool q fl fin m w) = Some p'
                        ∧ quiescent p' = true).
    { intros a p1 Ha Hp1. destruct (IH p1 Hp1) as (sch & p' & Hrun & Hq).
      exists (a :: sch), p'. simpl. by rewrite Ha. }
    destruct fl as [|[l o] fl].
    + destruct q as [|[l o] q].
      * destruct m as [all_items|e]; [|by exists [], (Pool [] [] fin (Propagating e) w)].
        destruct fin as [|[o r] fin]; [by exists [], (Pool [] [] [] (Collecting all_items) w)|].
        destruct (step server it tr total (Yield 0) (Pool [] [] ((o, r) :: fin) (Collecting all_items) w))
          as [p1|] eqn:E.
        -- apply (Hstep _ _ E). revert E. simpl.
           destruct (match r with Return data => get_items data | Raise e => Raise e end)
             as [items|e]; [|destruct (is_Exception e)];
             intros [= <-]; unfold todo; simpl in *; lia.
        -- revert E. simpl.
           destruct (match r with Return data => get_items data | Raise e => Raise e end)
             as [items|e]; [|destruct (is_Exception e)]; done.
      * apply (Hstep Start (Pool q [(l, o)] fin m
                 (send (get_top_items_request it tr l o) w))); [done|].
        unfold todo; simpl in *. lia.
    + destruct (get_top_items_reply (server (get_top_items_request it tr l o)) w)
        as [w1 r] eqn:E.
      apply (Hstep (Finish 0) (Pool q fl (fin ++ [(o, r)]) m w1)).
      * simpl. by rewrite E.
      * unfold todo; simpl in *. destruct m; rewrite ?length_app; simpl; lia.
Qed.

(** **** When every page succeeds *)

Lemma page_size_reply t k w :
  page_size (server (task_request it tr t)) = Some k →
  ∃ items total,
    get_top_items_reply (server (task_request it tr t)) w = (w, Return (JObject items total))
    ∧ length (default [] items) = k.
Proof.
  unfold page_size. destruct (server _) as [s [items total|]|]; try done.
  destruct (raise_for_status s) eqn:Hs; [done|]. intros [= <-].
  exists items, total. by rewrite reply_returns.
Qed.

Lemma step_all_pages_ok total n a p p' :
  step server it tr total a p = Some p' →
  all_pages_ok server it tr n p → all_pages_ok server it tr n p'.
Proof.
  destruct p as [q fl fin m w]. unfold all_pages_ok. simpl.
  intros Hstep (Hq & Hfin & all_items & -> & Hn). revert Hstep.
  destruct a as [|i|j]; simpl.
  - destruct q as [|[l o] q]; [done|]. case_decide; [|done]. intros [= <-]; simpl.
    split_and!; [|done|exists all_items; split; [done|]].
    + revert Hq. rewrite !Forall_app, Forall_cons, Forall_singleton. tauto.
    + revert Hn. rewrite !sum_list_with_app. simpl. lia.
  - destruct (fl !! i) as [[l o]|] eqn:Hi; [|done].
    apply Forall_app in Hq as [Hq Hfl].
    destruct (Forall_lookup_1 _ _ _ _ Hfl Hi) as [k Hk].
    destruct (page_size_reply (l, o) k w Hk) as (items & tot & Hr & Hlen).
    unfold task_request in Hr; simpl in Hr. rewrite Hr. intros [= <-]; simpl.
    split_and!.
    + apply Forall_app. split; [done|by apply Forall_delete].
    + apply Forall_app. split; [done|]. apply Forall_singleton. simpl. eauto.
    + exists all_items. split; [done|].
      revert Hn. rewrite (delete_Permutation fl i (l, o) Hi) at 1.
      rewrite !sum_list_with_app. simpl. unfold expected at 2. rewrite Hk.
      change (held (o, Return (JObject items tot))) with (length (default [] items)).
      simpl. lia.
  - destruct (fin !! j) as [[o r]|] eqn:Hj; [|done].
    destruct (Forall_lookup_1 _ _ _ _ Hfin Hj) as (items & tot & Hr).
    simpl in Hr. subst r. simpl. intros [= <-]; simpl.
    split_and!; [done|by apply Forall_delete|].
    eexists. split; [done|].
    revert Hn. rewrite (delete_Permutation fin j _ Hj) at 1.
    simpl. change (held (o, Return (JObject items tot))) with (length (default [] items)).
    rewrite length_app. lia.
Qed.

Lemma run_all_pages_ok total n sch p p' :
  run server it tr total sch p = Some p' →
  all_pages_ok server it tr n p → all_pages_ok server it tr n p'.
Proof.
  revert p. induction sch as [|a sch IH]; intros p; simpl.
  - by intros [= <-].
  - destruct (step server it tr total a p) as [p1|] eqn:E; [|done].
    eauto using step_all_pages_ok.
Qed.

Lemma quiescent_all_pages_ok n p :
  quiescent p = true → all_pages_ok server it tr n p →
  ∃ all_items, main p = Collecting all_items ∧ length all_items = n.
Proof.
  destruct p as [q fl fin m w]. unfold quiescent, all_pages_ok. simpl.
  intros Hq (_ & _ & all_items & -> & Hn). exists all_items. split; [done|].
  destruct q, fl, fin; try done. simpl in Hn. lia.
Qed.

(** **** When a page makes [get_top_items] exit *)

Lemma step_sane total a p p' :
  step server it tr total a p = Some p' → sane p → sane p'.
Proof.
  destruct p as [q fl fin m w]. unfold sane. simpl. intros Hstep [Hfin Hm]. revert Hstep.
  destruct a as [|i|j]; simpl.
  - destruct q as [|[l o] q]; [done|]. case_decide; [|done]. by intros [= <-].
  - destruct (fl !! i) as [[l o]|]; [|done].
    destruct (get_top_items_reply _ _) as [w1 r] eqn:E. intros [= <-]; simpl.
    split; [|done]. apply Forall_app. split; [done|]. apply Forall_singleton.
    simpl. intros e ->. by apply reply_raise_SystemExit in E.
  - destruct m as [all_items|e]; [|done].
    destruct (fin !! j) as [[o r]|] eqn:Hj; [|done].
    pose proof (Forall_lookup_1 _ _ _ _ Hfin Hj) as Hr. simpl in Hr.
    pose proof (Forall_delete _ _ j Hfin) as Hrest.
    destruct r as [[items tot|]|e]; simpl.
    + by intros [= <-].
    + by intros [= <-].
    + rewrite (Hr e eq_refl). simpl. intros [= <-]; simpl. split; [done|]. by intros ? [= <-].
Qed.

Lemma step_doomed total a p p' :
  step server it tr total a p = Some p' →
  sane p → doomed server it tr p → doomed server it tr p'.
Proof.
  destruct p as [q fl fin m w]. unfold sane, doomed. simpl.
  intros Hstep [Hfin Hm] Hd. revert Hstep.
  destruct a as [|i|j]; simpl.
  - destruct q as [|[l o] q]; [done|]. case_decide; [|done]. intros [= <-]; simpl.
    destruct Hd as [(t & Ht & Hx)|Hd]; [left|by right].
    exists t. split; [|done]. revert Ht. simpl.
    rewrite elem_of_cons, !elem_of_app, list_elem_of_singleton. tauto.
  - destruct (fl !! i) as [[l o]|] eqn:Hi; [|done].
    destruct (get_top_items_reply _ _) as [w1 r] eqn:E. intros [= <-]; simpl.
    destruct Hd as [(t & Ht & Hx)|[(o' & all_items & Ho' & ->)| ->]].
    + apply elem_of_app in Ht as [Ht|Ht]; [left; exists t; set_solver|].
      rewrite (delete_Permutation fl i _ Hi) in Ht.
      apply elem_of_cons in Ht as [->|Ht]; [|left; exists t; set_solver].
      destruct (reply_exits _ w Hx) as [msg Hmsg].
      unfold task_request in Hmsg; simpl in Hmsg. rewrite Hmsg in E.
      injection E as <- <-.
      destruct m as [all_items|e]; [|right; right; by rewrite (Hm e eq_refl)].
      right; left. exists o, all_items. set_solver.
    + right; left. exists o', all_items. set_solver.
    + by right; right.
  - destruct m as [all_items|e]; [|done].
    destruct (fin !! j) as [[o r]|] eqn:Hj; [|done].
    pose proof (Forall_lookup_1 _ _ _ _ Hfin Hj) as Hr. simpl in Hr.
    destruct Hd as [Hd|[(o' & all_items' & Ho' & _)|?]]; [| |done].
    + destruct r as [[items tot|]|e]; simpl;
        [| |rewrite (Hr e eq_refl); simpl]; intros [= <-]; simpl; by auto.
    + rewrite (delete_Permutation fin j _ Hj) in Ho'.
      apply elem_of_cons in Ho' as [Ho'|Ho'].
      * injection Ho' as -> <-. simpl. intros [= <-]; simpl. by right; right.
      * destruct r as [[items tot|]|e]; simpl;
          [| |rewrite (Hr e eq_refl); simpl]; intros [= <-]; simpl;
          [right; left; eauto..|by right; right].
Qed.

Lemma run_doomed total sch p p' :
  run server it tr total sch p = Some p' →
  sane p → doomed server it tr p → sane p' ∧ doomed server it tr p'.
Proof.
  revert p. induction sch as [|a sch IH]; intros p; simpl.
  - by intros [= <-].
  - destruct (step server it tr total a p) as [p1|] eqn:E; [|done].
    eauto using step_sane, step_doomed.
Qed.

Lemma quiescent_doomed (p : pool item) :
  quiescent p = true → doomed server it tr p → main p = Propagating (SystemExit 1).
Proof.
  destruct p as [q fl fin m w]. unfold quiescent, doomed. simpl.
  intros Hq [(t & Ht & _)|[(o & all_items & Ho & ->)|?]]; [| |done].
  - destruct q, fl; try done. by apply elem_of_nil in Ht.
  - destruct q, fl, fin; try done. by apply elem_of_nil in Ho.
Qed.

(** **** The parallel branch as a whole *)

Lemma fetch_parallel_requests total offsets all_items sch w w' r :
  fetch_parallel server it tr total offsets all_items sch w = Some (w', r) →
  requests w' = requests w ++ (task_request it tr <$> submitted total offsets).
Proof.
  unfold fetch_parallel.
  destruct (run _ _ _ _ _ _) as [p|] eqn:Hrun; [|done].
  destruct (quiescent p) eqn:Hq; [|done]. intros [= <- _].
  apply run_requests in Hrun. simpl in Hrun.
  destruct (quiescent_idle p Hq) as [Hwq _]. rewrite Hwq in Hrun.
  simpl in Hrun. by rewrite app_nil_r in Hrun.
Qed.

Lemma fetch_parallel_exists total offsets all_items w :
  ∃ sch out, fetch_parallel server it tr total offsets all_items sch w = Some out.
Proof.
  unfold fetch_parallel.
  edestruct (run_complete_exists total) as (sch & p & Hrun & Hq); [done|].
  exists sch. rewrite Hrun, Hq. eauto.
Qed.

Lemma fetch_parallel_all_ok total offsets all_items sch w w' r :
  Forall (λ t, is_Some (page_size (server (task_request it tr t)))) (submitted total offsets) →
  fetch_parallel server it tr total offsets all_items sch w = Some (w', r) →
  ∃ l, r = Return l
    ∧ length l = (length all_items
                  + sum_list_with (expected server it tr) (submitted total offsets))%nat.
Proof.
  intros Hok. unfold fetch_parallel.
  destruct (run _ _ _ _ _ _) as [p|] eqn:Hrun; [|done].
  destruct (quiescent p) eqn:Hq; [|done]. intros [= _ <-].
  eapply run_all_pages_ok in Hrun.
  - destruct (quiescent_all_pages_ok _ _ Hq Hrun) as (l & -> & Hl). eauto.
  - unfold all_pages_ok. simpl. rewrite app_nil_r. split_and!; [done|done|].
    exists all_items. split; [done|]. lia.
Qed.

Lemma fetch_parallel_exits total offsets all_items sch w w' r t :
  t ∈ submitted total offsets → exits (server (task_request it tr t)) = true →
  fetch_parallel server it tr total offsets all_items sch w = Some (w', r) →
  r = Raise (SystemExit 1).
Proof.
  intros Ht Hx. unfold fetch_parallel.
  destruct (run _ _ _ _ _ _) as [p|] eqn:Hrun; [|done].
  destruct (quiescent p) eqn:Hq; [|done]. intros [= _ <-].
  apply run_doomed in Hrun as [_ Hd].
  - by rewrite (quiescent_doomed p Hq Hd).
  - split; simpl; [constructor|done].
  - left. exists t. simpl. by rewrite app_nil_r.
Qed.

(** **** The sequential branch *)

Lemma fetch_sequential_all_ok total offsets all_items w :
  Forall (λ t, is_Some (page_size (server (task_request it tr t)))) (submitted total offsets) →
  ∃ w' l, fetch_sequential server it tr total offsets all_items w = (w', Return l)
    ∧ requests w' = requests w ++ (task_request it tr <$> submitted total offsets)
    ∧ length l = (length all_items
                  + sum_list_with (expected server it tr) (submitted total offsets))%nat.
Proof.
  revert all_items w. induction offsets as [|o offsets IH]; intros all_items w Hok; simpl.
  - exists w, all_items. rewrite app_nil_r. split_and!; [done|done|lia].
  - apply Forall_cons in Hok as [[k Hk] Hok].
    unfold get_top_items.
    destruct (page_size_reply (Z.min 50 (total - o), o) k
                (send (get_top_items_request it tr (Z.min 50 (total - o)) o) w) Hk)
      as (items & tot & Hr & Hlen).
    unfold task_request in Hr; simpl in Hr. rewrite Hr. simpl.
    edestruct (IH (all_items ++ default [] items)) as (w' & l & -> & Hreq & Hl); [done|].
    exists w', l. split_and!; [done| |].
    + rewrite Hreq, requests_print, requests_send, <- app_assoc. done.
    + rewrite Hl, length_app, Hlen. unfold expected at 2. rewrite Hk. simpl. lia.
Qed.

(** A sequential fetch stops at the first request that makes
    [get_top_items] exit: such a request is the last one sent, and the
    fetch ends with its [SystemExit(1)], right after its line was printed. *)
Lemma fetch_sequential_exits total offsets all_items w w' r :
  fetch_sequential server it tr total offsets all_items w = (w', r) →
  ∃ sent, requests w' = requests w ++ sent
    ∧ ∀ pre q post, sent = pre ++ q :: post → exits (server q) = true →
        post = [] ∧ r = Raise (SystemExit 1)
        ∧ ∃ w0, get_top_items_reply (server q) w0 = (w', Raise (SystemExit 1)).
Proof.
  revert all_items w. induction offsets as [|o offsets IH]; intros all_items w; simpl.
  - intros [= <- <-]. exists []. rewrite app_nil_r. split; [done|].
    intros pre q post H. by destruct pre.
  - unfold get_top_items.
    set (q0 := get_top_items_request it tr (Z.min 50 (total - o)) o).
    assert (Hone : ∀ pre q post, [q0] = pre ++ q :: post → pre = [] ∧ q = q0 ∧ post = []).
    { intros [|? [|? ?]] q post; simpl; intros [= ]; by subst. }
    destruct (exits (server q0)) eqn:Hx.
    + destruct (reply_exits _ (send q0 w) Hx) as [m Hm]. rewrite Hm.
      intros [= <- <-]. exists [q0]. rewrite requests_print, requests_send.
      split; [done|]. intros pre q post H _.
      apply Hone in H as (-> & -> & ->). eauto.
    + destruct (server q0) as [s data|] eqn:Hs; [|done]. simpl in Hx.
      rewrite reply_returns by done.
      destruct (get_items data) as [items|e] eqn:Hitems.
      * intros Hrec. destruct (IH _ _ Hrec) as (sent & Hreq & Hlast).
        exists (q0 :: sent). rewrite Hreq, requests_print, requests_send, <- app_assoc.
        split; [done|]. intros [|q1 pre] q post; simpl.
        -- intros [= <- _] Hq. rewrite Hs in Hq. simpl in Hq. congruence.
        -- intros [= _ ->]. eauto.
      * intros [= <- <-]. exists [q0]. rewrite requests_send. split; [done|].
        intros pre q post H Hq. apply Hone in H as (-> & -> & ->).
        rewrite Hs in Hq. simpl in Hq. congruence.
Qed.

(** **** [get_all_top_items] after its first request *)

Lemma get_all_first_exits max_items parallel sch w :
  exits (server (get_top_items_request it tr 50 0)) = true →
  ∃ m, get_all_top_items server it tr max_items parallel sch w
       = Some (print m (send (get_top_items_request it tr 50 0) (print (Fetching it tr) w)),
               Raise (SystemExit 1))
    ∧ get_top_items_reply (server (get_top_items_request it tr 50 0))
        (send (get_top_items_request it tr 50 0) (print (Fetching it tr) w))
      = (print m (send (get_top_items_request it tr 50 0) (print (Fetching it tr) w)),
         Raise (SystemExit 1)).
Proof.
  intros Hx. unfold get_all_top_items, get_top_items.
  destruct (reply_exits _ (send (get_top_items_request it tr 50 0) (print (Fetching it tr) w)) Hx)
    as [m Hm].
  exists m. by rewrite Hm.
Qed.

Lemma get_all_first_ok s items total max_items parallel sch w :
  server (get_top_items_request it tr 50 0) = Response s (JObject items total) →
  raise_for_status s = false →
  get_all_top_items server it tr max_items parallel sch w
  = let all_items := default [] items in
    let w1 := print (Progress (length all_items) (default 0 total))
                (send (get_top_items_request it tr 50 0) (print (Fetching it tr) w)) in
    let total := if Py.truthy_int max_items
                 then Z.min (default 0 total) (default 0 max_items)
                 else default 0 total in
    if total - Z.of_nat (length all_items) <=? 0 then Some (w1, Return all_items)
    else
      match
        (if negb parallel || (length (Py.range 50 total 50) =? 0)%nat
         then Some (fetch_sequential server it tr total (Py.range 50 total 50) all_items w1)
         else fetch_parallel server it tr total (Py.range 50 total 50) all_items sch w1)
      with
      | Some (w, Return all_items) => Some (w, Return (Py.slice_to all_items total))
      | Some (w, Raise e) => Some (w, Raise e)
      | None => None
      end.
Proof.
  intros Hs Hok. unfold get_all_top_items, get_top_items.
  rewrite Hs, reply_returns by done. done.
Qed.

(** Whatever the schedule handed to a fetch, some schedule completes it. *)
Lemma get_all_top_items_exists max_items parallel w :
  ∃ sch out, get_all_top_items server it tr max_items parallel sch w = Some out.
Proof.
  unfold get_all_top_items.
  destruct (get_top_items _ _ _ _ _ _) as [w1 [[items total|]|e]]; [|by exists [] ; eauto..].
  cbv zeta.
  destruct (_ <=? 0); [by exists []; eauto|].
  destruct (negb parallel || _).
  - exists []. destruct (fetch_sequential _ _ _ _ _ _ _) as [w2 [l|e]]; eauto.
  - edestruct fetch_parallel_exists as (sch & [w2 [l|e]] & Hsch);
      exists sch; rewrite Hsch; eauto.
Qed.

(** The list returned is the first page as it came, or has at most
    [total] items, [total] being the declared total capped by [max_items]. *)
Lemma get_all_top_items_length s items total max_items parallel sch w w' l :
  server (get_top_items_request it tr 50 0) = Response s (JObject items total) →
  raise_for_status s = false →
  get_all_top_items server it tr max_items parallel sch w = Some (w', Return l) →
  let total := if Py.truthy_int max_items
               then Z.min (default 0 total) (default 0 max_items)
               else default 0 total in
  (l = default [] items ∧ total ≤ Z.of_nat (length l)) ∨ Z.of_nat (length l) ≤ total.
Proof.
  intros Hs Hok. rewrite (get_all_first_ok s items total) by done. cbv zeta.
  destruct (_ <=? 0) eqn:Hrem.
  - apply Z.leb_le in Hrem. intros [= _ <-]. left. split; [done|lia].
  - apply Z.leb_gt in Hrem.
    destruct (if negb parallel || _ then _ else _) as [[w2 [l2|e]]|]; [|done..].
    intros [= _ <-]. right. apply PyFacts.slice_to_length. lia.
Qed.

(** **** Requests that make [get_top_items] exit, seen from the fetch *)

Lemma cons_eq_middle {A} (x q : A) (l pre post : list A) :
  x :: l = pre ++ q :: post →
  (pre = [] ∧ q = x ∧ post = l) ∨ ∃ pre', pre = x :: pre' ∧ l = pre' ++ q :: post.
Proof.
  destruct pre as [|y pre]; simpl; intros [= -> ->]; [by left|right; eauto].
Qed.

Lemma get_all_exits max_items parallel sch w w' r pre q post :
  get_all_top_items server it tr max_items parallel sch w = Some (w', r) →
  requests w' = requests w ++ pre ++ q :: post →
  exits (server q) = true →
  r = Raise (SystemExit 1)
  ∧ (parallel = false ∨ pre = [] →
     post = [] ∧ ∃ w0, get_top_items_reply (server q) w0 = (w', Raise (SystemExit 1))).
Proof.
  set (q0 := get_top_items_request it tr 50 0).
  set (w0 := send q0 (print (Fetching it tr) w)).
  assert (requests w0 = requests w ++ [q0]) as Hw0
    by (subst w0; by rewrite requests_send, requests_print).
  destruct (exits (server q0)) eqn:Hx0.
  { destruct (get_all_first_exits max_items parallel sch w Hx0) as (m & -> & Hm).
    fold q0 w0 in Hm |- *. intros [= <- <-]. rewrite requests_print, Hw0.
    intros H%app_inv_head Hx. apply cons_eq_middle in H as [(-> & -> & <-)|(? & _ & H)];
      [|by destruct x]. eauto. }
  destruct (server q0) as [s data|] eqn:Hs; [|done]. simpl in Hx0.
  destruct data as [items total|].
  2:{ unfold get_all_top_items, get_top_items. fold q0 w0. rewrite Hs, reply_returns by done.
      intros [= <- <-]. rewrite Hw0. intros H%app_inv_head Hx.
      apply cons_eq_middle in H as [(-> & -> & <-)|(? & _ & H)]; [|by destruct x].
      rewrite Hs in Hx. simpl in Hx. congruence. }
  rewrite (get_all_first_ok s items total) by done. cbv zeta. fold q0 w0.
  set (w1 := print _ w0). set (total' := if Py.truthy_int max_items then _ else _).
  assert (requests w1 = requests w ++ [q0]) as Hw1 by (subst w1; by rewrite requests_print).
  assert (Hfirst : ∀ X, (requests w ++ [q0]) ++ X = requests w ++ pre ++ q :: post →
            exits (server q) = true → ∃ pre', pre = q0 :: pre' ∧ X = pre' ++ q :: post).
  { intros X H Hx. rewrite <- app_assoc in H. apply app_inv_head in H. simpl in H.
    apply cons_eq_middle in H as [(_ & -> & _)|H]; [|done].
    rewrite Hs in Hx. simpl in Hx. congruence. }
  destruct (_ <=? 0).
  { intros [= <- <-]. rewrite Hw1. intros H Hx.
    rewrite <- (app_nil_r (_ ++ [q0])) in H.
    destruct (Hfirst _ H Hx) as (pre' & _ & Hnil). by destruct pre'. }
  destruct (negb parallel || _) eqn:Hmode.
  - destruct (fetch_sequential _ _ _ _ _ _ _) as [w2 r2] eqn:Hseq.
    destruct (fetch_sequential_exits _ _ _ _ _ _ Hseq) as (sent & Hreq & Hlast).
    intros Hout Hreqs Hx.
    assert (w' = w2) as -> by (destruct r2; by injection Hout).
    rewrite Hreq, Hw1 in Hreqs. destruct (Hfirst _ Hreqs Hx) as (pre' & -> & Hsent).
    destruct (Hlast _ _ _ Hsent Hx) as (-> & -> & Hw). injection Hout as <-. eauto.
  - destruct (fetch_parallel _ _ _ _ _ _ _ _) as [[w2 r2]|] eqn:Hpar; [|done].
    pose proof (fetch_parallel_requests _ _ _ _ _ _ _ Hpar) as Hreq.
    intros Hout Hreqs Hx.
    assert (w' = w2) as -> by (destruct r2; by injection Hout).
    rewrite Hreq, Hw1 in Hreqs. destruct (Hfirst _ Hreqs Hx) as (pre' & -> & Hsent).
    assert (q ∈ task_request it tr <$> submitted total' (Py.range 50 total' 50)) as Hq
      by (rewrite Hsent; set_solver).
    apply list_elem_of_fmap in Hq as (t & -> & Ht).
    rewrite (fetch_parallel_exits _ _ _ _ _ _ _ t Ht Hx Hpar) in Hout.
    injection Hout as <-. split; [done|].
    intros [->|?]; [|done]. by destruct (length _ =? _)%nat.
Qed.

(** In a parallel fetch, every remaining page is requested, whatever the
    replies are. *)
Lemma get_all_parallel_requests s items total max_items sch w w' r :
  server (get_top_items_request it tr 50 0) = Response s (JObject items total) →
  raise_for_status s = false →
  get_all_top_items server it tr max_items true sch w = Some (w', r) →
  let total := if Py.truthy_int max_items
               then Z.min (default 0 total) (default 0 max_items)
               else default 0 total in
  Z.of_nat (length (default [] items)) < total →
  requests w'
  = requests w ++ get_top_items_request it tr 50 0
      :: (task_request it tr <$> submitted total (Py.range 50 total 50)).
Proof.
  intros Hs Hok. rewrite (get_all_first_ok s items total) by done. cbv zeta.
  set (w1 := print _ _). set (total' := if Py.truthy_int max_items then _ else _).
  assert (requests w1 = requests w ++ [get_top_items_request it tr 50 0]) as Hw1
    by (subst w1; by rewrite requests_print, requests_send, requests_print).
  intros Hout Hlt. revert Hout.
  destruct (_ <=? 0) eqn:Hrem; [apply Z.leb_le in Hrem; lia|]. simpl negb. simpl orb.
  destruct (Py.range 50 total' 50) as [|o offsets] eqn:Hrange; simpl.
  - intros [= <- _]. by rewrite Hw1.
  - destruct (fetch_parallel _ _ _ _ _ _ _ _) as [[w2 r2]|] eqn:Hpar; [|done].
    pose proof (fetch_parallel_requests _ _ _ _ _ _ _ Hpar) as Hreq.
    intros Hout. assert (w' = w2) as -> by (destruct r2; by injection Hout).
    by rewrite Hreq, Hw1, <- app_assoc.
Qed.

(** **** Every request answered with 401 is followed by its line *)

Lemma answered_reply q body w0 pending w i q' :
  server q = Response 401 body →
  pending !! i = Some q' →
  answered q Error401 w0 pending w →
  answered q Error401 w0 (delete i pending) (get_top_items_reply (server q') w).1.
Proof.
  intros H401 Hi Hans.
  assert (∀ m', q ≠ q' → answered q Error401 w0 (delete i pending) (print m' w)) as Hother.
  { intros m' Hne. apply answered_print. revert Hans. apply answered_weaken.
    intros Hin. destruct (elem_of_delete_one pending i q q' Hi Hin); done. }
  assert (∀ s b, server q' = Response s b → s ≠ 401 → q ≠ q') as Hne
    by (intros s b Hs Hs' ->; congruence).
  destruct (server q') as [s b|] eqn:Hs; simpl.
  - destruct (raise_for_status s) eqn:Hraise; simpl.
    + destruct (s =? 401) eqn:E1.
      { eapply answered_weaken; [|by apply (answered_last _ _ _ _ _ Hans)].
        by intros ?%elem_of_nil. }
      apply Z.eqb_neq in E1.
      destruct (s =? 403); [by eauto|]. destruct (s =? 429); by eauto.
    + revert Hans. apply answered_weaken. intros Hin.
      assert (q ≠ q') as Hq by (intros ->; rewrite H401 in Hs; injection Hs as <- _; done).
      destruct (elem_of_delete_one pending i q q' Hi Hin); done.
  - apply Hother. intros ->. congruence.
Qed.

Lemma step_answered total q body w0 a p p' :
  server q = Response 401 body →
  step server it tr total a p = Some p' →
  answered q Error401 w0 (task_request it tr <$> in_flight p) (env p) →
  answered q Error401 w0 (task_request it tr <$> in_flight p') (env p').
Proof.
  intros H401. destruct p as [queue fl fin m w]. unfold step.
  cbn [work_queue in_flight finished main env]. intros Hstep Hans. revert Hstep.
  destruct a as [|i|j].
  - destruct queue as [|[l o] queue]; [done|]. case_decide; [|done].
    intros [= <-]. cbn [work_queue in_flight finished main env].
    rewrite fmap_app. by apply answered_send.
  - destruct (fl !! i) as [[l o]|] eqn:Hi; [|done].
    destruct (get_top_items_reply _ _) as [w1 r] eqn:Hrp.
    intros [= <-]. cbn [work_queue in_flight finished main env].
    rewrite list_fmap_delete.
    assert ((task_request it tr <$> fl) !! i = Some (get_top_items_request it tr l o)) as Hi'
      by (by rewrite list_lookup_fmap, Hi).
    pose proof (answered_reply q body w0 _ w i _ H401 Hi' Hans) as H.
    by rewrite Hrp in H.
  - destruct m as [all_items|e]; [|done].
    destruct (fin !! j) as [[o r]|]; [|done].
    destruct (match r with Return data => get_items data | Raise e => Raise e end)
      as [items|e]; [|destruct (is_Exception e)];
      intros [= <-]; cbn [work_queue in_flight finished main env];
      by try apply answered_print.
Qed.

Lemma run_answered total q body w0 sch p p' :
  server q = Response 401 body →
  run server it tr total sch p = Some p' →
  answered q Error401 w0 (task_request it tr <$> in_flight p) (env p) →
  answered q Error401 w0 (task_request it tr <$> in_flight p') (env p').
Proof.
  intros H401. revert p. induction sch as [|a sch IH]; intros p; simpl.
  - by intros [= <-].
  - destruct (step server it tr total a p) as [p1|] eqn:E; [|done].
    eauto using step_answered.
Qed.

Lemma fetch_parallel_answered total offsets all_items sch q body w0 w w' r :
  server q = Response 401 body →
  fetch_parallel server it tr total offsets all_items sch w = Some (w', r) →
  answered q Error401 w0 [] w → answered q Error401 w0 [] w'.
Proof.
  intros H401. unfold fetch_parallel.
  destruct (run _ _ _ _ _ _) as [p|] eqn:Hrun; [|done].
  destruct (quiescent p) eqn:Hq; [|done]. intros [= <- _] Hans.
  pose proof (run_answered _ _ _ w0 _ _ _ H401 Hrun Hans) as H.
  unfold quiescent in Hq. destruct (work_queue p); [|done].
  by destruct (in_flight p).
Qed.

Lemma get_top_items_answered limit offset q body w0 w :
  server q = Response 401 body →
  answered q Error401 w0 [] w →
  answered q Error401 w0 [] (get_top_items server it tr limit offset w).1.
Proof.
  intros H401 Hans. unfold get_top_items.
  apply (answered_reply q body w0 [get_top_items_request it tr limit offset] _ 0%nat _ H401
           eq_refl).
  by apply (answered_send _ _ _ [] _ _ Hans).
Qed.

Lemma fetch_sequential_answered total offsets all_items q body w0 w w' r :
  server q = Response 401 body →
  fetch_sequential server it tr total offsets all_items w = (w', r) →
  answered q Error401 w0 [] w → answered q Error401 w0 [] w'.
Proof.
  intros H401. revert all_items w.
  induction offsets as [|o offsets IH]; intros all_items w; simpl.
  - by intros [= <- _].
  - intros Hrec Hans.
    pose proof (get_top_items_answered (Z.min 50 (total - o)) o q body w0 w H401 Hans) as H.
    destruct (get_top_items server it tr _ o w) as [w1 [data|e]]; simpl in H.
    + destruct (get_items data) as [items|e].
      * apply (IH _ _ Hrec). by apply answered_print.
      * by injection Hrec as <- _.
    + by injection Hrec as <- _.
Qed.

Lemma get_all_answered max_items parallel sch q body w w' r :
  server q = Response 401 body →
  get_all_top_items server it tr max_items parallel sch w = Some (w', r) →
  answered q Error401 w [] w'.
Proof.
  intros H401. unfold get_all_top_items.
  pose proof (get_top_items_answered 50 0 q body w (print (Fetching it tr) w) H401
                (answered_print _ _ _ _ _ _ (answered_refl q Error401 w))) as H.
  destruct (get_top_items server it tr 50 0 _) as [w1 [[items total|]|e]]; simpl in H;
    [|by intros [= <- _]|by intros [= <- _]].
  cbv zeta. set (w2 := print _ w1).
  assert (answered q Error401 w [] w2) as H2 by (by apply answered_print).
  destruct (_ <=? 0); [by intros [= <- _]|].
  destruct (negb parallel || _).
  - destruct (fetch_sequential _ _ _ _ _ _ _) as [w3 r3] eqn:Hseq.
    pose proof (fetch_sequential_answered _ _ _ _ _ _ _ _ _ H401 Hseq H2) as H3.
    destruct r3; by intros [= <- _].
  - destruct (fetch_parallel _ _ _ _ _ _ _ _) as [[w3 r3]|] eqn:Hpar; [|done].
    pose proof (fetch_parallel_answered _ _ _ _ _ _ _ _ _ _ H401 Hpar H2) as H3.
    destruct r3; by intros [= <- _].
Qed.

(** The line of the 401 is printed by the fetch, after the request. *)
Lemma get_all_prints_401 max_items parallel sch q body w w' r pre post :
  server q = Response 401 body →
  get_all_top_items server it tr max_items parallel sch w = Some (w', r) →
  requests w' = requests w ++ pre ++ q :: post →
  ∃ a b, w' = w ++ a ++ Get q :: b ∧ Print Error401 ∈ b.
Proof.
  intros H401 Hfetch Hreq.
  destruct (get_all_answered _ _ _ _ _ _ _ _ H401 Hfetch) as (d & -> & H).
  rewrite requests_app in Hreq. apply app_inv_head in Hreq.
  assert (Get q ∈ d) as Hin.
  { apply elem_of_requests. rewrite Hreq. apply elem_of_app. right. by left. }
  apply list_elem_of_split in Hin as (a & b & ->).
  exists a, b. split; [done|].
  destruct (H a b eq_refl) as [Hnil|?]; [by apply elem_of_nil in Hnil|done].
Qed.

End Fetch.

End Items.

End ClientFacts.
(** * Properties of the token manager *)

Module AuthFacts.

Import Auth.
Local Open Scope Z_scope.

Section Flow.

Variable token_endpoint : token_request → reply.

Lemma post_returns r s body w :
  token_endpoint r = Response s body → raise_for_status s = false →
  post token_endpoint r w = (emit (Post r) w, Return body).
Proof.
  intros Hr Hs. unfold post, mbind, M_bind, act. simpl. by rewrite Hr, Hs.
Qed.

Lemma post_raises r exc w :
  post_failure (token_endpoint r) = Some exc →
  post token_endpoint r w = (emit (Post r) w, Raise exc).
Proof.
  unfold post, post_failure, mbind, M_bind, act. simpl.
  destruct (token_endpoint r) as [s body|]; [|by intros [= <-]].
  destruct (raise_for_status s); [by intros [= <-]|done].
Qed.

Lemma post_cases r w :
  (∃ s body, token_endpoint r = Response s body ∧ raise_for_status s = false
             ∧ post token_endpoint r w = (emit (Post r) w, Return body))
  ∨ (∃ exc, post_failure (token_endpoint r) = Some exc
            ∧ post token_endpoint r w = (emit (Post r) w, Raise exc)).
Proof.
  destruct (post_failure (token_endpoint r)) as [exc|] eqn:E.
  - right. eauto using post_raises.
  - left. unfold post_failure in E. destruct (token_endpoint r) as [s body|] eqn:Hr; [|done].
    destruct (raise_for_status s) eqn:Hs; [done|]. eauto 6 using post_returns.
Qed.

Lemma save_tokens_spec t w :
  save_tokens t w = (emit (Print TokensSaved) (World (Some (saved t)) (trace w)), Return (saved t)).
Proof. done. Qed.

Lemma saved_lookup_ne t key :
  key ≠ "expires_at" → saved t !! key = t !! key.
Proof. intros H. unfold saved. by rewrite lookup_insert_ne. Qed.

(** **** The callback handler *)

Lemma do_GET_code_raises code exc w :
  post_failure (token_endpoint (AuthorizationCode code)) = Some exc →
  do_GET_code token_endpoint code w = (emit (Post (AuthorizationCode code)) w, Raise exc).
Proof.
  intros H. unfold do_GET_code, get_tokens_from_code, mbind, M_bind.
  by rewrite (post_raises _ _ _ H).
Qed.

Lemma do_GET_code_shows code s body w :
  token_endpoint (AuthorizationCode code) = Response s body →
  raise_for_status s = false →
  printable (body !! "access_token") →
  body !! "refresh_token" = None ∨ printable (body !! "refresh_token") →
  do_GET_code token_endpoint code w
  = (World (Some (saved body))
       (trace w ++ Post (AuthorizationCode code) :: Print TokensSaved :: Respond 200
                :: Print AuthSuccessful :: shown_tokens body),
     Return ()).
Proof.
  intros Hr Hs Ha Hrt. unfold do_GET_code, get_tokens_from_code, mbind, M_bind.
  rewrite (post_returns _ _ _ _ Hr Hs), save_tokens_spec.
  unfold subscript, act, print, act, emit, mret, M_ret, shown_tokens. simpl.
  rewrite !saved_lookup_ne by done.
  destruct (body !! "access_token") as [[| | |a]|]; try done. simpl.
  destruct Hrt as [->|Hrt].
  - rewrite <- !app_assoc. simpl. reflexivity.
  - destruct (body !! "refresh_token") as [[| | |rt]|]; try done. simpl.
    rewrite <- !app_assoc. simpl. reflexivity.
Qed.


(** **** Refreshing *)

Lemma available_test refresh_token (t : tokens) :
  Py.truthy_str refresh_token || from_option truthy false (t !! "refresh_token")
  = bool_decide (is_Some (available refresh_token t)).
Proof.
  unfold available. destruct (Py.truthy_str refresh_token); simpl; [done|].
  destruct (t !! "refresh_token") as [v|]; simpl; [|done]. by destruct (truthy v).
Qed.

Lemma refresh_stored_raises refresh_token t prior exc w :
  available refresh_token t = Some prior →
  post_failure (token_endpoint (RefreshToken prior)) = Some exc →
  refresh_stored token_endpoint refresh_token t w
  = (World (token_file w) (trace w ++ [Print Refreshing; Post (RefreshToken prior)]),
     Raise exc).
Proof.
  intros Hav Hfail. unfold refresh_stored, refresh_access_token, mbind, M_bind, print, act.
  unfold available in Hav.
  destruct (Py.truthy_str refresh_token); simpl.
  - injection Hav as <-. rewrite (post_raises _ _ _ Hfail).
    unfold emit. simpl. by rewrite <- app_assoc.
  - unfold subscript. destruct (t !! "refresh_token") as [v|]; [|done].
    destruct (truthy v); [|done]. injection Hav as <-. simpl.
    rewrite (post_raises _ _ _ Hfail). unfold emit. simpl. by rewrite <- app_assoc.
Qed.

Lemma refresh_stored_returns refresh_token t prior s body w :
  available refresh_token t = Some prior →
  token_endpoint (RefreshToken prior) = Response s body →
  raise_for_status s = false →
  refresh_stored token_endpoint refresh_token t w
  = (World (Some (saved (merged prior body)))
       (trace w ++ [Print Refreshing; Post (RefreshToken prior);
                    Print TokensSaved; Print Refreshed]),
     match body !! "access_token" with
     | Some a => Return a
     | None => Raise (KeyError "access_token")
     end).
Proof.
  intros Hav Hr Hs.
  assert (∀ w0, (new_tokens ← refresh_access_token token_endpoint prior;
                 let new_tokens :=
                   match new_tokens !! "refresh_token" with
                   | None => <["refresh_token" := prior]> new_tokens
                   | Some _ => new_tokens
                   end in
                 new_tokens ← save_tokens new_tokens;
                 print Refreshed;;
                 subscript new_tokens "access_token") w0
                = (World (Some (saved (merged prior body)))
                     (trace w0 ++ [Post (RefreshToken prior); Print TokensSaved; Print Refreshed]),
                   match body !! "access_token" with
                   | Some a => Return a
                   | None => Raise (KeyError "access_token")
                   end)) as Hrest.
  { intros w0. unfold refresh_access_token, mbind, M_bind.
    rewrite (post_returns _ _ _ _ Hr Hs), save_tokens_spec.
    fold (merged prior body). unfold print, act, emit, subscript. simpl.
    rewrite saved_lookup_ne by done.
    assert (merged prior body !! "access_token" = body !! "access_token") as ->.
    { unfold merged. destruct (body !! "refresh_token"); [done|].
      by rewrite lookup_insert_ne. }
    rewrite <- !app_assoc. simpl. by destruct (body !! "access_token"). }
  unfold refresh_stored. unfold mbind at 1 2, M_bind at 1 2. unfold print at 1, act, emit.
  unfold available in Hav.
  destruct (Py.truthy_str refresh_token); simpl.
  - injection Hav as <-. rewrite Hrest. simpl. by rewrite <- app_assoc.
  - unfold subscript at 1. destruct (t !! "refresh_token") as [v|]; [|done].
    destruct (truthy v); [|done]. injection Hav as <-. simpl.
    rewrite Hrest. simpl. by rewrite <- app_assoc.
Qed.

Lemma get_valid_token_refreshes e incoming w prior :
  Py.truthy_str (SPOTIFY_CLIENT_ID e) = true →
  Py.truthy_str (SPOTIFY_CLIENT_SECRET e) = true →
  available (SPOTIFY_REFRESH_TOKEN e) (load_tokens w) = Some prior →
  get_valid_token token_endpoint e incoming w
  = match refresh_stored token_endpoint (SPOTIFY_REFRESH_TOKEN e) (load_tokens w) w with
    | (w, Return access_token) => Done (Some access_token) w
    | (w, Raise exc) =>
        authenticate token_endpoint incoming
          (emit (Print StartingNewFlow) (emit (Print (CouldNotRefresh exc)) w))
    end.
Proof.
  intros Hid Hsecret Hav. unfold get_valid_token. rewrite Hid, Hsecret. simpl.
  rewrite available_test, Hav. rewrite bool_decide_eq_true_2 by eauto. done.
Qed.

(** **** The listener only adds to the trace *)

Lemma do_GET_trace p should_stop w :
  ∃ rest, trace (do_GET token_endpoint p should_stop w).2 = trace w ++ rest.
Proof.
  unfold do_GET. destruct (p !! "code") as [[code more]|].
  - assert (∃ rest, trace (do_GET_code token_endpoint code w).1 = trace w ++ rest)
      as [rest Hrest].
    { unfold do_GET_code, get_tokens_from_code, mbind, M_bind.
      destruct (post_cases (AuthorizationCode code) w)
        as [(s & body & _ & _ & ->)|(exc & _ & ->)]; [|by eexists].
      rewrite save_tokens_spec.
      unfold subscript, first20, act, print, act, emit, mret, M_ret, raise. simpl.
      destruct (saved body !! "access_token") as [[| | |a]|]; simpl;
        try (eexists; rewrite <- !app_assoc; reflexivity).
      destruct (saved body !! "refresh_token") as [[| | |rt]|]; simpl;
        eexists; rewrite <- !app_assoc; reflexivity. }
    destruct (do_GET_code token_endpoint code w) as [w1 [[]|exc]]; simpl in *.
    + eauto.
    + rewrite Hrest, <- !app_assoc. eauto.
  - destruct (p !! "error") as [[error more]|]; [destruct (Py.latin_1 error)|];
      simpl; rewrite <- ?app_assoc; eauto.
Qed.

Lemma serve_forever_trace incoming should_stop w :
  ∃ rest, trace (serve_forever token_endpoint incoming should_stop w).1.2 = trace w ++ rest.
Proof.
  revert should_stop w. induction incoming as [|p incoming IH]; intros [] w; simpl;
    try (exists []; by rewrite app_nil_r).
  destruct (do_GET_trace p false w) as [rest1 H1].
  destruct (do_GET token_endpoint p false w) as [stop w1]. simpl in H1.
  destruct (IH stop w1) as [rest2 H2]. rewrite H2, H1, <- app_assoc. eauto.
Qed.

Lemma authenticate_trace incoming w :
  ∃ rest,
    trace (outcome_world (authenticate token_endpoint incoming w))
    = trace w ++ Print AuthBanner :: OpenBrowser :: Print WaitingForAuthentication :: rest.
Proof.
  unfold authenticate, start_auth_flow.
  set (w0 := emit _ (emit _ (emit _ w))).
  destruct (serve_forever_trace incoming false w0) as [rest Hrest].
  destruct (serve_forever token_endpoint incoming false w0) as [[[] w1] left]; simpl in *;
    rewrite Hrest; subst w0; simpl; rewrite <- !app_assoc; eauto.
Qed.

End Flow.

End AuthFacts.

(** * The fetcher against its specification *)

Local Open Scope Z_scope.

(** C10. Every call of [get_top_items] sends exactly one request, whose
    [limit] parameter is [min(limit, 50)]: a limit above 50 is sent as 50,
    and any other limit, zero and negative ones included, is sent as it
    is, not rejected. *)
Theorem get_top_items_limit_clamped
    {item : Type} (server : Client.request → Client.reply item)
    (item_type time_range : string) (limit offset : Z) (w : Client.world) :
  let sent := Client.Request item_type time_range (Z.min limit 50) offset in
  Client.requests (Client.get_top_items server item_type time_range limit offset w).1
    = Client.requests w ++ [sent]
  ∧ Client.limit sent = (if decide (50 < limit)%Z then 50%Z else limit).
Proof.
  split; [apply ClientFacts.get_top_items_requests|].
  simpl. case_decide; lia.
Qed.

(** C8. If the request at offset 0 fails, with any HTTP error status or
    with a transport error, [get_all_top_items] ends with the
    [SystemExit(1)] of [get_top_items] and has sent that one request only. *)
Theorem first_request_failure_is_fatal
    {item : Type} (server : Client.request → Client.reply item)
    (it tr : string) (max_items : option Z) (parallel : bool)
    (sch : list Client.action) (w : Client.world) :
  Client.exits (server (Client.Request it tr 50 0)) = true →
  ∃ m, Client.get_all_top_items server it tr max_items parallel sch w
       = Some (w ++ [Client.Print (Client.Fetching it tr);
                     Client.Get (Client.Request it tr 50 0);
                     Client.Print m],
               Client.Raise (Client.SystemExit 1)).
Proof.
  intros Hx.
  destruct (ClientFacts.get_all_first_exits server it tr max_items parallel sch w Hx)
    as (m & -> & _).
  exists m. unfold Client.print, Client.send. by rewrite <- !app_assoc.
Qed.

Lemma first_request_failure_is_fatal_witness :
  ∃ m, Client.get_all_top_items
         (Scenario.api_failing_at 0 Client.RequestException 237)
         "tracks" "medium_term" None true [] []
       = Some ([Client.Print (Client.Fetching "tracks" "medium_term");
                Client.Get (Client.Request "tracks" "medium_term" 50 0);
                Client.Print m],
               Client.Raise (Client.SystemExit 1)).
Proof.
  apply (first_request_failure_is_fatal
           (Scenario.api_failing_at 0 Client.RequestException 237)
           "tracks" "medium_term" None true [] []).
  reflexivity.
Defined.

(** C7. When the total declared by the first page (capped by [max_items]
    when given) is at most 50, [get_all_top_items] sends the first request
    and no other, and returns the items of that page: none when the page
    is empty and declares 0, the 37 of the page when it declares 37. *)
Theorem single_page_fetch
    {item : Type} (server : Client.request → Client.reply item)
    (it tr : string) (max_items : option Z) (parallel : bool)
    (sch : list Client.action) (w : Client.world)
    (s : Z) (items : option (list item)) (total : option Z) :
  server (Client.Request it tr 50 0) = Client.Response s (Client.JObject items total) →
  Client.raise_for_status s = false →
  (default 0 total ≤ 50)%Z →
  Client.get_all_top_items server it tr max_items parallel sch w
  = Some (w ++ [Client.Print (Client.Fetching it tr);
                Client.Get (Client.Request it tr 50 0);
                Client.Print (Client.Progress (length (default [] items)) (default 0 total))],
          Client.Return (default [] items)).
Proof.
  intros Hs Hok Hle.
  rewrite (ClientFacts.get_all_first_ok server it tr s items total) by done.
  cbv zeta. unfold Client.print, Client.send. rewrite <- !app_assoc. simpl.
  set (capped := if Py.truthy_int max_items then _ else _).
  assert (capped ≤ 50)%Z as Hcap by (subst capped; destruct (Py.truthy_int _); lia).
  destruct (_ <=? 0)%Z eqn:Hrem; [done|]. apply Z.leb_gt in Hrem.
  rewrite (PyFacts.range_50_nil capped Hcap). rewrite orb_true_r. simpl.
  by rewrite PyFacts.slice_to_all by lia.
Qed.

Lemma single_page_fetch_witness :
  Client.get_all_top_items (Scenario.api 37) "tracks" "medium_term" None true [] []
  = Some ([Client.Print (Client.Fetching "tracks" "medium_term");
           Client.Get (Client.Request "tracks" "medium_term" 50 0);
           Client.Print (Client.Progress 37 37)],
          Client.Return (seqZ 0 37))
  ∧ Client.get_all_top_items (Scenario.api 0) "artists" "long_term" None true [] []
    = Some ([Client.Print (Client.Fetching "artists" "long_term");
             Client.Get (Client.Request "artists" "long_term" 50 0);
             Client.Print (Client.Progress 0 0)],
            Client.Return []).
Proof.
  split.
  - apply (single_page_fetch (Scenario.api 37) "tracks" "medium_term" None true [] []
             200 (Some (seqZ 0 37)) (Some 37%Z)); [reflexivity|reflexivity|simpl; lia].
  - apply (single_page_fetch (Scenario.api 0) "artists" "long_term" None true [] []
             200 (Some []) (Some 0%Z)); [reflexivity|reflexivity|simpl; lia].
Defined.

(** C3. The early return of [get_all_top_items] hands back the first page
    as it came: asked for at most 10 items of a collection of 100, it
    returns the 50 items of the first page. *)
Theorem early_return_not_truncated (sch : list Client.action) :
  Client.get_all_top_items (Scenario.api 100) "tracks" "medium_term" (Some 10%Z) true sch []
  = Some ([Client.Print (Client.Fetching "tracks" "medium_term");
           Client.Get (Client.Request "tracks" "medium_term" 50 0);
           Client.Print (Client.Progress 50 100)],
          Client.Return (seqZ 0 50))
  ∧ length (seqZ 0 50) = 50%nat.
Proof. split; reflexivity. Qed.

(** C6. When the first page declares 237 items and brings 50 of them,
    [get_all_top_items] sends five requests in all, at offsets 0, 50, 100,
    150 and 200, the pages after the first being asked for
    [min(50, 237 - offset)] items, hence 37 for the last; when every page
    brings what it was asked for, the list returned has 237 items.  This
    holds for the sequential fetch and for every execution of the pool,
    and executions exist. *)
Theorem fetch_237_in_five_requests
    {item : Type} (server : Client.request → Client.reply item)
    (it tr : string) (parallel : bool) (sch : list Client.action) (w : Client.world)
    (s : Z) (first_page : list item) :
  server (Client.Request it tr 50 0)
    = Client.Response s (Client.JObject (Some first_page) (Some 237)) →
  Client.raise_for_status s = false →
  length first_page = 50%nat →
  Forall (λ r, Client.page_size (server r) = Some (Z.to_nat (Client.limit r)))
    ((λ offset, Client.Request it tr (Z.min 50 (237 - offset)) offset) <$> [50; 100; 150; 200]) →
  (∃ sch0 out, Client.get_all_top_items server it tr None parallel sch0 w = Some out)
  ∧ ∀ w' r, Client.get_all_top_items server it tr None parallel sch w = Some (w', r) →
      Client.requests w'
      = Client.requests w ++ [Client.Request it tr 50 0; Client.Request it tr 50 50;
                              Client.Request it tr 50 100; Client.Request it tr 50 150;
                              Client.Request it tr 37 200]
      ∧ ∃ l, r = Client.Return l ∧ length l = 237%nat.
Proof.
  intros Hs Hok Hlen Hpages.
  split; [apply ClientFacts.get_all_top_items_exists|].
  intros w' r.
  rewrite (ClientFacts.get_all_first_ok server it tr s (Some first_page) (Some 237)) by done.
  cbv zeta. cbn [Py.truthy_int from_option id]. rewrite Hlen.
  change (Py.range 50 237 50) with [50; 100; 150; 200].
  change (237 - Z.of_nat 50 <=? 0) with false. cbv iota.
  set (w1 := Client.print _ _).
  assert (Client.requests w1 = Client.requests w ++ [Client.Request it tr 50 0]) as Hw1.
  { subst w1. by rewrite ClientFacts.requests_print, ClientFacts.requests_send,
      ClientFacts.requests_print. }
  assert (Forall (λ t, is_Some (Client.page_size (server (Client.task_request it tr t))))
            (Client.submitted 237 [50; 100; 150; 200])) as Hsub.
  { unfold Client.submitted. rewrite Forall_fmap. apply Forall_fmap in Hpages.
    eapply Forall_impl; [exact Hpages|]. intros o Ho.
    unfold compose, Client.task_request, Client.get_top_items_request. simpl.
    replace (Z.min (Z.min 50 (237 - o)) 50) with (Z.min 50 (237 - o)) by lia.
    simpl in Ho. by rewrite Ho. }
  assert (sum_list_with (Client.expected server it tr) (Client.submitted 237 [50; 100; 150; 200])
          = 187%nat) as Hsum.
  { pose proof (Forall_lookup_1 _ _ 0%nat _ Hpages eq_refl) as H1.
    pose proof (Forall_lookup_1 _ _ 1%nat _ Hpages eq_refl) as H2.
    pose proof (Forall_lookup_1 _ _ 2%nat _ Hpages eq_refl) as H3.
    pose proof (Forall_lookup_1 _ _ 3%nat _ Hpages eq_refl) as H4.
    simpl in H1, H2, H3, H4.
    change (50 `min` (237 - 50)) with 50 in H1.
    change (50 `min` (237 - 100)) with 50 in H2.
    change (50 `min` (237 - 150)) with 50 in H3.
    change (50 `min` (237 - 200)) with 37 in H4.
    change (Client.submitted 237 [50; 100; 150; 200])
      with [(50, 50); (50, 100); (50, 150); (37, 200)].
    unfold Client.expected, Client.task_request, Client.get_top_items_request.
    cbn [sum_list_with fst snd].
    change (50 `min` 50) with 50. change (37 `min` 50) with 37.
    rewrite H1, H2, H3, H4. reflexivity. }
  assert (Client.task_request it tr <$> Client.submitted 237 [50; 100; 150; 200]
          = [Client.Request it tr 50 50; Client.Request it tr 50 100;
             Client.Request it tr 50 150; Client.Request it tr 37 200]) as Hreqs by reflexivity.
  destruct parallel; simpl negb; cbv iota; simpl orb; cbv iota.
  - destruct (Client.fetch_parallel _ _ _ _ _ _ _ _) as [[w2 r2]|] eqn:Hpar; [|done].
    pose proof (ClientFacts.fetch_parallel_requests _ _ _ _ _ _ _ _ _ _ Hpar) as Hreq.
    destruct (ClientFacts.fetch_parallel_all_ok _ _ _ _ _ _ _ _ _ _ Hsub Hpar) as (l & -> & Hl).
    intros [= <- <-]. rewrite Hreq, Hw1, Hreqs, <- app_assoc. split; [done|].
    exists (Py.slice_to l 237). split; [done|].
    rewrite PyFacts.slice_to_all; lia.
  - destruct (ClientFacts.fetch_sequential_all_ok server it tr 237 _ first_page w1 Hsub)
      as (w2 & l & -> & Hreq & Hl).
    intros [= <- <-]. rewrite Hreq, Hw1, Hreqs, <- app_assoc. split; [done|].
    exists (Py.slice_to l 237). split; [done|].
    rewrite PyFacts.slice_to_all; lia.
Qed.

Lemma fetch_237_in_five_requests_witness :
  let sch := [Client.Start; Client.Start; Client.Start; Client.Start;
              Client.Finish 3; Client.Finish 0; Client.Finish 1; Client.Finish 0;
              Client.Yield 0; Client.Yield 0; Client.Yield 0; Client.Yield 0] in
  ∃ w' l,
    Client.get_all_top_items (Scenario.api 237) "tracks" "medium_term" None true sch []
    = Some (w', Client.Return l)
    ∧ Client.requests w'
      = [Client.Request "tracks" "medium_term" 50 0; Client.Request "tracks" "medium_term" 50 50;
         Client.Request "tracks" "medium_term" 50 100; Client.Request "tracks" "medium_term" 50 150;
         Client.Request "tracks" "medium_term" 37 200]
    ∧ length l = 237%nat.
Proof.
  intros sch.
  assert (∃ w' r, Client.get_all_top_items (Scenario.api 237) "tracks" "medium_term"
                    None true sch [] = Some (w', r)) as (w' & r & E).
  { vm_compute. do 2 eexists. reflexivity. }
  assert (Forall (λ r, Client.page_size (Scenario.api 237 r) = Some (Z.to_nat (Client.limit r)))
            ((λ offset, Client.Request "tracks" "medium_term" (Z.min 50 (237 - offset)) offset)
               <$> [50; 100; 150; 200])) as Hpages by (repeat constructor).
  destruct (proj2 (fetch_237_in_five_requests (Scenario.api 237) "tracks" "medium_term"
                     true sch [] 200 (seqZ 0 50) eq_refl eq_refl eq_refl Hpages) w' r E)
    as (Hreq & l & -> & Hl).
  exists w', l. auto.
Defined.

(** C1. A transport error on the page at offset 100 of a collection of 237
    items: the five requests are sent, none is cancelled, and every
    execution of the parallel fetch ends with [SystemExit(1)] instead of
    returning the 187 items of the other pages. *)
Theorem page_transport_error_exits
    (sch : list Client.action) (w' : Client.world) (r : Client.result (list Z)) :
  Client.get_all_top_items
    (Scenario.api_failing_at 100 Client.RequestException 237)
    "tracks" "medium_term" None true sch [] = Some (w', r) →
  r = Client.Raise (Client.SystemExit 1)
  ∧ Client.requests w'
    = [Client.Request "tracks" "medium_term" 50 0; Client.Request "tracks" "medium_term" 50 50;
       Client.Request "tracks" "medium_term" 50 100; Client.Request "tracks" "medium_term" 50 150;
       Client.Request "tracks" "medium_term" 37 200].
Proof.
  rewrite (ClientFacts.get_all_first_ok _ "tracks" "medium_term" 200
             (Some (seqZ 0 50)) (Some 237)) by reflexivity.
  cbv zeta. cbn [Py.truthy_int from_option id].
  change (length (seqZ 0 50)) with 50%nat.
  change (Py.range 50 237 50) with [50; 100; 150; 200].
  change (237 - Z.of_nat 50 <=? 0) with false. cbv iota.
  change (negb true || (length [50; 100; 150; 200] =? 0)%nat) with false. cbv iota.
  set (w1 := Client.print _ _).
  destruct (Client.fetch_parallel _ _ _ _ _ _ _ _) as [[w2 r2]|] eqn:Hpar; [|done].
  pose proof (ClientFacts.fetch_parallel_requests _ _ _ _ _ _ _ _ _ _ Hpar) as Hreq.
  assert (r2 = Client.Raise (Client.SystemExit 1)) as ->.
  { assert ((50, 100) ∈ Client.submitted 237 [50; 100; 150; 200]) as Hin
      by (apply list_elem_of_fmap; exists 100; split; [done|set_solver]).
    assert (Client.exits (Scenario.api_failing_at 100 Client.RequestException 237
                            (Client.task_request "tracks" "medium_term" (50, 100))) = true)
      as Hx by reflexivity.
    exact (ClientFacts.fetch_parallel_exits _ _ _ _ _ _ _ _ _ _ _ Hin Hx Hpar). }
  intros [= <- <-]. split; [done|]. by rewrite Hreq.
Qed.

Lemma page_transport_error_exits_witness :
  let sch := [Client.Start; Client.Start; Client.Start; Client.Start;
              Client.Finish 0; Client.Finish 0; Client.Finish 0; Client.Finish 0;
              Client.Yield 0; Client.Yield 0] in
  ∃ w',
    Client.get_all_top_items
      (Scenario.api_failing_at 100 Client.RequestException 237)
      "tracks" "medium_term" None true sch [] = Some (w', Client.Raise (Client.SystemExit 1))
    ∧ Client.log w'
      = [Client.Fetching "tracks" "medium_term"; Client.Progress 50 237;
         Client.ErrorConnection; Client.Progress 100 237]
    ∧ Client.requests w'
      = [Client.Request "tracks" "medium_term" 50 0; Client.Request "tracks" "medium_term" 50 50;
         Client.Request "tracks" "medium_term" 50 100; Client.Request "tracks" "medium_term" 50 150;
         Client.Request "tracks" "medium_term" 37 200].
Proof.
  intros sch.
  assert (∃ w' r, Client.get_all_top_items
                    (Scenario.api_failing_at 100 Client.RequestException 237)
                    "tracks" "medium_term" None true sch [] = Some (w', r)
                  ∧ Client.log w'
                    = [Client.Fetching "tracks" "medium_term"; Client.Progress 50 237;
                       Client.ErrorConnection; Client.Progress 100 237])
    as (w' & r & E & Hlog).
  { vm_compute. do 2 eexists. split; reflexivity. }
  destruct (page_transport_error_exits sch w' r E) as [-> Hreq].
  exists w'. auto.
Defined.

(** C4, as stated, fails.  Eleven pages are submitted to the ten workers;
    the page at offset 50 is answered with 401, its line is printed and the
    main thread meets the [SystemExit]; the worker that is now free then
    sends the request at offset 550, which was waiting in the queue. *)
Lemma request_sent_after_401 :
  let sch := replicate 10 Client.Start
             ++ [Client.Finish 0; Client.Yield 0; Client.Start]
             ++ replicate 10 (Client.Finish 0) in
  let sent_before :=
    Client.Get <$> (Client.Request "tracks" "medium_term" 50
                      <$> [0; 50; 100; 150; 200; 250; 300; 350; 400; 450; 500]) in
  ∃ pre,
    Client.requests pre = Client.requests sent_before
    ∧ Client.get_all_top_items
        (Scenario.api_failing_at 50 (Client.Response 401 Client.JOther) 600)
        "tracks" "medium_term" None true sch []
      = Some (pre ++ [Client.Print Client.Error401;
                      Client.Get (Client.Request "tracks" "medium_term" 50 550)],
              Client.Raise (Client.SystemExit 1)).
Proof.
  exists ([Client.Print (Client.Fetching "tracks" "medium_term");
           Client.Get (Client.Request "tracks" "medium_term" 50 0);
           Client.Print (Client.Progress 50 600)]
          ++ (Client.Get <$> (Client.Request "tracks" "medium_term" 50
                                <$> [50; 100; 150; 200; 250; 300; 350; 400; 450; 500]))).
  split; vm_compute; reflexivity.
Qed.

(** C4, amended.  A request answered with 401 makes [get_top_items] print
    the line kept for 401, which it prints for no other reply, and the
    fetch ends with [SystemExit(1)], the exception of every failed request.
    In every mode and execution the fetch has printed that line after it
    sent the request.  When that request is the first of the fetch, or the
    fetch is sequential, it is the last request sent and its line is the
    last thing the fetch does.  A parallel fetch has submitted every
    remaining page before it looks at a result, and all of them are
    requested, whatever the replies. *)
Theorem unauthorized_request_ends_fetch
    {item : Type} (server : Client.request → Client.reply item)
    (it tr : string) (max_items : option Z) (parallel : bool)
    (sch : list Client.action) (w w' : Client.world) (r : Client.result (list item))
    (q : Client.request) (body : Client.json item) :
  Client.get_all_top_items server it tr max_items parallel sch w = Some (w', r) →
  server q = Client.Response 401 body →
  (∀ pre post, Client.requests w' = Client.requests w ++ pre ++ q :: post →
     r = Client.Raise (Client.SystemExit 1)
     ∧ (∃ a b, w' = w ++ a ++ Client.Get q :: b ∧ Client.Print Client.Error401 ∈ b)
     ∧ (parallel = false ∨ pre = [] →
        post = [] ∧ ∃ w0, w' = w0 ++ [Client.Print Client.Error401]))
  ∧ (∀ rp w0,
       Client.get_top_items_reply rp w0
       = (w0 ++ [Client.Print Client.Error401], Client.Raise (Client.SystemExit 1))
       ↔ ∃ b : Client.json item, rp = Client.Response 401 b)
  ∧ (∀ (rp : Client.reply item) w0 w1 exc,
       Client.get_top_items_reply rp w0 = (w1, Client.Raise exc) → exc = Client.SystemExit 1)
  ∧ (parallel = true →
     ∀ s items total,
       server (Client.Request it tr 50 0) = Client.Response s (Client.JObject items total) →
       Client.raise_for_status s = false →
       let total := if Py.truthy_int max_items
                    then Z.min (default 0 total) (default 0 max_items)
                    else default 0 total in
       Z.of_nat (length (default [] items)) < total →
       Client.requests w'
       = Client.requests w ++ Client.Request it tr 50 0
           :: ((λ offset, Client.Request it tr (Z.min 50 (total - offset)) offset)
                 <$> Py.range 50 total 50)).
Proof.
  intros Hfetch H401. split_and!.
  - intros pre post Hreq.
    assert (Client.exits (server q) = true) as Hx by (by rewrite H401).
    destruct (ClientFacts.get_all_exits server it tr _ _ _ _ _ _ _ _ _ Hfetch Hreq Hx)
      as [-> Hlast].
    split; [done|].
    split; [exact (ClientFacts.get_all_prints_401 server it tr _ _ _ _ _ _ _ _ _ _
                     H401 Hfetch Hreq)|].
    intros Hmode. destruct (Hlast Hmode) as (-> & w0 & Hw0).
    split; [done|]. exists w0. rewrite H401 in Hw0. by injection Hw0 as <-.
  - intros rp w0. split.
    + destruct rp as [s b|]; simpl.
      * destruct (Client.raise_for_status s); [|intros [= H _]; by apply app_nil_head in H].
        unfold Client.print. intros [= H%app_inv_head].
        destruct (s =? 401) eqn:E; [apply Z.eqb_eq in E as ->; eauto|].
        destruct (s =? 403); [done|]. destruct (s =? 429); done.
      * unfold Client.print. by intros [= H%app_inv_head].
    + by intros [b ->].
  - intros rp w0 w1 exc. apply ClientFacts.reply_raise_SystemExit.
  - intros -> s items total Hs Hok total' Hlt.
    rewrite (ClientFacts.get_all_parallel_requests server it tr s items total
               max_items sch w w' r Hs Hok Hfetch Hlt).
    do 2 f_equal. unfold Client.submitted. rewrite <- list_fmap_compose.
    apply list_fmap_ext. intros _ o _. unfold compose, Client.task_request,
      Client.get_top_items_request. simpl. f_equal. lia.
Qed.

Lemma unauthorized_request_ends_fetch_witness :
  let q := Client.Request "tracks" "medium_term" 50 100 in
  let server := Scenario.api_failing_at 100 (Client.Response 401 Client.JOther) 237 in
  let sch := [Client.Start; Client.Start; Client.Start; Client.Start;
              Client.Finish 0; Client.Finish 0; Client.Finish 0; Client.Finish 0;
              Client.Yield 0; Client.Yield 0] in
  (∃ w' r,
     Client.get_all_top_items server "tracks" "medium_term" None false [] [] = Some (w', r)
     ∧ ∀ pre post,
         Client.requests w' = pre ++ q :: post →
         r = Client.Raise (Client.SystemExit 1)
         ∧ (∃ a b, w' = a ++ Client.Get q :: b ∧ Client.Print Client.Error401 ∈ b)
         ∧ (false = false ∨ pre = [] →
            post = [] ∧ ∃ w0, w' = w0 ++ [Client.Print Client.Error401]))
  ∧ (∃ w' r,
       Client.get_all_top_items server "tracks" "medium_term" None true sch [] = Some (w', r)
       ∧ Client.requests w'
         = [Client.Request "tracks" "medium_term" 50 0;
            Client.Request "tracks" "medium_term" 50 50] ++ q
             :: [Client.Request "tracks" "medium_term" 50 150;
                 Client.Request "tracks" "medium_term" 37 200]
       ∧ r = Client.Raise (Client.SystemExit 1)
       ∧ ∃ a b, w' = a ++ Client.Get q :: b ∧ Client.Print Client.Error401 ∈ b).
Proof.
  intros q server sch. split.
  - assert (∃ w' r, Client.get_all_top_items server "tracks" "medium_term" None false [] []
                    = Some (w', r))
      as (w' & r & E).
    { vm_compute. do 2 eexists. reflexivity. }
    exists w', r. split; [done|].
    exact (proj1 (unauthorized_request_ends_fetch server "tracks" "medium_term" None false
                    [] [] w' r q Client.JOther E eq_refl)).
  - assert (∃ w' r, Client.get_all_top_items server "tracks" "medium_term" None true sch []
                    = Some (w', r)
                    ∧ Client.requests w'
                      = [Client.Request "tracks" "medium_term" 50 0;
                         Client.Request "tracks" "medium_term" 50 50] ++ q
                          :: [Client.Request "tracks" "medium_term" 50 150;
                              Client.Request "tracks" "medium_term" 37 200])
      as (w' & r & E & Hreq).
    { vm_compute. do 2 eexists. split; reflexivity. }
    exists w', r. split; [exact E|]. split; [exact Hreq|].
    destruct (proj1 (unauthorized_request_ends_fetch server "tracks" "medium_term" None true
                       sch [] w' r q Client.JOther E eq_refl) _ _ Hreq)
      as (Hr & Hline & _).
    split; [exact Hr|exact Hline].
Defined.

(** * The token manager against its specification *)

(** C5. A refresh made with the refresh token [prior] whose response
    brings no ["refresh_token"] leaves a token file that holds [prior];
    when the response brings an access token, this is the file
    [get_valid_token] returns with. *)
Theorem refresh_keeps_refresh_token
    (token_endpoint : Auth.token_request → Auth.reply) (e : Auth.environ)
    (incoming : list (gmap string (string * list string))) (w : Auth.world)
    (prior : Auth.jval) (s : Z) (body : gmap string Auth.jval) :
  Py.truthy_str (Auth.SPOTIFY_CLIENT_ID e) = true →
  Py.truthy_str (Auth.SPOTIFY_CLIENT_SECRET e) = true →
  Auth.available (Auth.SPOTIFY_REFRESH_TOKEN e) (Auth.load_tokens w) = Some prior →
  token_endpoint (Auth.RefreshToken prior) = Auth.Response s body →
  Auth.raise_for_status s = false →
  body !! "refresh_token" = None →
  ∃ record after,
    (Auth.refresh_stored token_endpoint (Auth.SPOTIFY_REFRESH_TOKEN e) (Auth.load_tokens w) w).1
    = after
    ∧ Auth.token_file after = Some record
    ∧ record !! "refresh_token" = Some prior
    ∧ ∀ a, body !! "access_token" = Some a →
        Auth.get_valid_token token_endpoint e incoming w = Auth.Done (Some a) after.
Proof.
  intros Hid Hsecret Hav Hr Hs Hnone.
  rewrite (AuthFacts.get_valid_token_refreshes token_endpoint e incoming w prior Hid Hsecret Hav).
  rewrite (AuthFacts.refresh_stored_returns token_endpoint _ _ prior s body w Hav Hr Hs).
  eexists _, _. split_and!; [done|done| |].
  - rewrite AuthFacts.saved_lookup_ne by done. unfold Auth.merged.
    rewrite Hnone. by rewrite lookup_insert_eq.
  - by intros a ->.
Qed.

Lemma refresh_keeps_refresh_token_witness :
  let endpoint := λ _ : Auth.token_request,
    Auth.Response 200 {[ "access_token" := Auth.JStr "fresh"; "expires_in" := Auth.JNum 3600 ]} in
  let e := Auth.Environ (Some "id") (Some "secret") None in
  let w := Auth.World
             (Some {[ "access_token" := Auth.JStr "stale"; "refresh_token" := Auth.JStr "kept" ]})
             [] in
  ∃ record after,
    (Auth.refresh_stored endpoint (Auth.SPOTIFY_REFRESH_TOKEN e) (Auth.load_tokens w) w).1 = after
    ∧ Auth.token_file after = Some record
    ∧ record !! "refresh_token" = Some (Auth.JStr "kept")
    ∧ ∀ a, ({[ "access_token" := Auth.JStr "fresh"; "expires_in" := Auth.JNum 3600 ]}
              : gmap string Auth.jval) !! "access_token" = Some a →
        Auth.get_valid_token endpoint e [] w = Auth.Done (Some a) after.
Proof.
  intros endpoint e w.
  apply (refresh_keeps_refresh_token endpoint e [] w (Auth.JStr "kept") 200
           {[ "access_token" := Auth.JStr "fresh"; "expires_in" := Auth.JNum 3600 ]});
    reflexivity.
Defined.

(** C9. With the credentials set and a refresh token available, from the
    environment or else from the token file, [get_valid_token] starts
    with the refresh request.  When the response brings an access token,
    the new record is written and the access token returned, and nothing
    else is done: the browser is not opened.  When the request fails,
    with an HTTP error status or in the transport, and more generally when
    anything raises during the refresh, the exception is printed and the
    call goes on with the interactive flow, which opens the browser. *)
Theorem refresh_first_then_fall_back
    (token_endpoint : Auth.token_request → Auth.reply) (e : Auth.environ)
    (incoming : list (gmap string (string * list string))) (w : Auth.world)
    (prior : Auth.jval) :
  Py.truthy_str (Auth.SPOTIFY_CLIENT_ID e) = true →
  Py.truthy_str (Auth.SPOTIFY_CLIENT_SECRET e) = true →
  Auth.available (Auth.SPOTIFY_REFRESH_TOKEN e) (Auth.load_tokens w) = Some prior →
  (∀ s body a,
     token_endpoint (Auth.RefreshToken prior) = Auth.Response s body →
     Auth.raise_for_status s = false →
     body !! "access_token" = Some a →
     Auth.get_valid_token token_endpoint e incoming w
     = Auth.Done (Some a)
         (Auth.World (Some (Auth.saved (Auth.merged prior body)))
            (Auth.trace w ++ [Auth.Print Auth.Refreshing; Auth.Post (Auth.RefreshToken prior);
                              Auth.Print Auth.TokensSaved; Auth.Print Auth.Refreshed])))
  ∧ (∀ exc,
       Auth.post_failure (token_endpoint (Auth.RefreshToken prior)) = Some exc →
       Auth.get_valid_token token_endpoint e incoming w
       = Auth.authenticate token_endpoint incoming
           (Auth.World (Auth.token_file w)
              (Auth.trace w ++ [Auth.Print Auth.Refreshing; Auth.Post (Auth.RefreshToken prior);
                                Auth.Print (Auth.CouldNotRefresh exc);
                                Auth.Print Auth.StartingNewFlow])))
  ∧ (∀ w1 exc,
       Auth.refresh_stored token_endpoint (Auth.SPOTIFY_REFRESH_TOKEN e) (Auth.load_tokens w) w
       = (w1, Auth.Raise exc) →
       Auth.get_valid_token token_endpoint e incoming w
       = Auth.authenticate token_endpoint incoming
           (Auth.emit (Auth.Print Auth.StartingNewFlow)
              (Auth.emit (Auth.Print (Auth.CouldNotRefresh exc)) w1)))
  ∧ (∀ w0, ∃ rest,
       Auth.trace (Auth.outcome_world (Auth.authenticate token_endpoint incoming w0))
       = Auth.trace w0 ++ Auth.Print Auth.AuthBanner :: Auth.OpenBrowser
           :: Auth.Print Auth.WaitingForAuthentication :: rest).
Proof.
  intros Hid Hsecret Hav.
  rewrite (AuthFacts.get_valid_token_refreshes token_endpoint e incoming w prior Hid Hsecret Hav).
  split_and!.
  - intros s body a Hr Hs Ha.
    by rewrite (AuthFacts.refresh_stored_returns token_endpoint _ _ prior s body w Hav Hr Hs), Ha.
  - intros exc Hfail.
    rewrite (AuthFacts.refresh_stored_raises token_endpoint _ _ prior exc w Hav Hfail).
    unfold Auth.emit. simpl. by rewrite <- !app_assoc.
  - by intros w1 exc ->.
  - intros w0. apply AuthFacts.authenticate_trace.
Qed.

Lemma refresh_first_then_fall_back_witness :
  let endpoint := λ r : Auth.token_request,
    match r with
    | Auth.RefreshToken _ => Auth.Response 400 ∅
    | Auth.AuthorizationCode _ =>
        Auth.Response 200 {[ "access_token" := Auth.JStr "fresh";
                             "refresh_token" := Auth.JStr "new" ]}
    end in
  let e := Auth.Environ (Some "id") (Some "secret") (Some "expired") in
  Auth.get_valid_token endpoint e [{[ "code" := ("c0de", []) ]}] (Auth.World None [])
  = Auth.authenticate endpoint [{[ "code" := ("c0de", []) ]}]
      (Auth.World None
         [Auth.Print Auth.Refreshing; Auth.Post (Auth.RefreshToken (Auth.JStr "expired"));
          Auth.Print (Auth.CouldNotRefresh (Auth.HTTPError 400));
          Auth.Print Auth.StartingNewFlow])
  ∧ Auth.get_valid_token endpoint e [{[ "code" := ("c0de", []) ]}] (Auth.World None [])
    = Auth.Done (Some (Auth.JStr "fresh"))
        (Auth.World
           (Some {[ "access_token" := Auth.JStr "fresh"; "refresh_token" := Auth.JStr "new";
                    "expires_at" := Auth.JNum 3600 ]})
           [Auth.Print Auth.Refreshing; Auth.Post (Auth.RefreshToken (Auth.JStr "expired"));
            Auth.Print (Auth.CouldNotRefresh (Auth.HTTPError 400));
            Auth.Print Auth.StartingNewFlow;
            Auth.Print Auth.AuthBanner; Auth.OpenBrowser;
            Auth.Print Auth.WaitingForAuthentication;
            Auth.Post (Auth.AuthorizationCode "c0de"); Auth.Print Auth.TokensSaved;
            Auth.Respond 200; Auth.Print Auth.AuthSuccessful;
            Auth.Print (Auth.ShowAccessToken "fresh");
            Auth.Print (Auth.ShowRefreshToken "new")]).
Proof.
  intros endpoint e. split.
  - apply (proj1 (proj2 (refresh_first_then_fall_back endpoint e
                           [{[ "code" := ("c0de", []) ]}] (Auth.World None [])
                           (Auth.JStr "expired") eq_refl eq_refl eq_refl))
             (Auth.HTTPError 400)).
    reflexivity.
  - vm_compute. reflexivity.
Defined.




(** * Further properties of the fetcher *)

Module FetchFacts.

Import Client Pages.
Local Open Scope Z_scope.

Lemma range_50_seq (total : Z) :
  ∃ n : nat,
    Py.range 50 total 50 = (λ k : nat, 50 + 50 * Z.of_nat k) <$> seq 0 n
    ∧ (∀ k : nat, (k < n)%nat → 50 + 50 * Z.of_nat k < total)
    ∧ total ≤ 50 + 50 * Z.of_nat n.
Proof.
  exists (Z.to_nat ((total - 50 + 50 - 1) `div` 50)). split; [done|].
  pose proof (Z.div_mod (total - 50 + 50 - 1) 50 ltac:(lia)) as Hdiv.
  pose proof (Z.mod_pos_bound (total - 50 + 50 - 1) 50 ltac:(lia)) as Hmod.
  set (q := (total - 50 + 50 - 1) `div` 50) in *.
  split; [intros k Hk|]; lia.
Qed.

Lemma range_50_elem (total o : Z) :
  o ∈ Py.range 50 total 50 → 50 ≤ o < total.
Proof.
  destruct (range_50_seq total) as (n & -> & Hlt & _).
  intros (k & -> & Hk%elem_of_seq)%list_elem_of_fmap.
  specialize (Hlt k). lia.
Qed.

Section Items.

Context {item : Type}.

Section Fetch.

Variable server : request → reply item.
Variables (it tr : string).

Lemma planned_well_formed total :
  Forall (well_formed it tr) (task_request it tr <$> planned total).
Proof.
  unfold planned, submitted. rewrite <- list_fmap_compose. apply Forall_fmap, Forall_forall.
  intros o Ho%range_50_elem. unfold well_formed, compose, task_request, get_top_items_request.
  simpl. repeat split; lia || done.
Qed.

Lemma planned_offsets total :
  offset <$> (task_request it tr <$> planned total) = Py.range 50 total 50.
Proof.
  unfold planned, submitted. rewrite <- !list_fmap_compose.
  rewrite <- (list_fmap_id (Py.range 50 total 50)) at 2. by apply list_fmap_ext.
Qed.

(** **** The requests of a fetch are the first ones of its plan *)

Lemma fetch_sequential_prefix total offsets all_items w w' r :
  fetch_sequential server it tr total offsets all_items w = (w', r) →
  ∃ sent, requests w' = requests w ++ sent
    ∧ sent `prefix_of` (task_request it tr <$> submitted total offsets).
Proof.
  revert all_items w. induction offsets as [|o offsets IH]; intros all_items w; simpl.
  - intros [= <- _]. exists []. by rewrite app_nil_r.
  - unfold get_top_items.
    set (q0 := get_top_items_request it tr (Z.min 50 (total - o)) o).
    assert (∀ w0 : world, requests w0 = requests (send q0 w) →
              ∃ sent, requests w0 = requests w ++ sent
                ∧ sent `prefix_of` (task_request it tr (50 `min` (total - o), o)
                                      :: (task_request it tr <$> submitted total offsets)))
      as Hstop.
    { intros w0 ->. exists [q0]. rewrite ClientFacts.requests_send. split; [done|].
      by apply prefix_cons, prefix_nil. }
    pose proof (ClientFacts.reply_requests (server q0) (send q0 w)) as Hrp.
    destruct (get_top_items_reply (server q0) (send q0 w)) as [w1 [data|e]]; simpl in Hrp.
    + destruct (get_items data) as [items|e].
      * intros Hrec. destruct (IH _ _ Hrec) as (sent & Hreq & Hpre).
        exists (q0 :: sent). split; [|by apply prefix_cons].
        by rewrite Hreq, ClientFacts.requests_print, Hrp, ClientFacts.requests_send,
          <- app_assoc.
      * intros [= <- _]. by apply Hstop.
    + intros [= <- _]. by apply Hstop.
Qed.

Lemma get_all_requests_prefix max_items parallel sch w w' r :
  get_all_top_items server it tr max_items parallel sch w = Some (w', r) →
  ∃ total sent,
    requests w' = requests w ++ get_top_items_request it tr 50 0 :: sent
    ∧ sent `prefix_of` (task_request it tr <$> planned total).
Proof.
  set (q0 := get_top_items_request it tr 50 0).
  set (w0 := send q0 (print (Fetching it tr) w)).
  assert (requests w0 = requests w ++ [q0]) as Hw0
    by (subst w0; by rewrite ClientFacts.requests_send, ClientFacts.requests_print).
  assert (∀ w1 : world, requests w1 = requests w0 →
            ∃ total sent, requests w1 = requests w ++ q0 :: sent
              ∧ sent `prefix_of` (task_request it tr <$> planned total)) as Hstop.
  { intros w1 ->. exists 0, []. split; [done|apply prefix_nil]. }
  destruct (exits (server q0)) eqn:Hx0.
  { destruct (ClientFacts.get_all_first_exits server it tr max_items parallel sch w Hx0)
      as (m & -> & _).
    intros [= <- _]. apply Hstop. by rewrite ClientFacts.requests_print. }
  destruct (server q0) as [s [items total|]|] eqn:Hs; [| |done]; simpl in Hx0.
  2:{ unfold get_all_top_items, get_top_items. fold q0 w0.
      rewrite Hs, ClientFacts.reply_returns by done. intros [= <- _]. by apply Hstop. }
  rewrite (ClientFacts.get_all_first_ok server it tr s items total) by done. cbv zeta.
  fold q0 w0. set (w1 := print _ w0). fold (capped max_items (default 0 total)).
  set (total' := capped _ _).
  assert (requests w1 = requests w0) as Hw1 by (subst w1; apply ClientFacts.requests_print).
  destruct (_ <=? 0); [intros [= <- _]; by apply Hstop|].
  fold (planned total').
  destruct (negb parallel || _).
  - destruct (fetch_sequential _ _ _ _ _ _ _) as [w2 r2] eqn:Hseq.
    destruct (fetch_sequential_prefix _ _ _ _ _ _ Hseq) as (sent & Hreq & Hpre).
    intros Hout. assert (w' = w2) as -> by (destruct r2; by injection Hout).
    exists total', sent. split; [|done]. by rewrite Hreq, Hw1, Hw0, <- app_assoc.
  - destruct (fetch_parallel _ _ _ _ _ _ _ _) as [[w2 r2]|] eqn:Hpar; [|done].
    pose proof (ClientFacts.fetch_parallel_requests _ _ _ _ _ _ _ _ _ _ Hpar) as Hreq.
    intros Hout. assert (w' = w2) as -> by (destruct r2; by injection Hout).
    exists total', (task_request it tr <$> planned total'). split; [|done].
    by rewrite Hreq, Hw1, Hw0, <- app_assoc.
Qed.

(** **** The items of a fetch whose pages come back *)

Lemma no_exit_reply t w :
  exits (server (task_request it tr t)) = false →
  ∃ data, get_top_items_reply (server (task_request it tr t)) w = (w, Return data)
    ∧ task_items server it tr t
      = match get_items data with Return items => items | Raise _ => [] end.
Proof.
  unfold task_items, page_items. destruct (server _) as [s data|]; [|done]. simpl.
  intros Hs. rewrite Hs. exists data. split; [done|]. by destruct data.
Qed.

Lemma fetch_sequential_items total offsets all_items w :
  Forall (λ t, is_Some (page_size (server (task_request it tr t)))) (submitted total offsets) →
  ∃ w', fetch_sequential server it tr total offsets all_items w
        = (w', Return (all_items ++ (submitted total offsets ≫= task_items server it tr))).
Proof.
  revert all_items w. induction offsets as [|o offsets IH]; intros all_items w Hok.
  - exists w. simpl. by rewrite app_nil_r.
  - apply Forall_cons in Hok as [[k Hk] Hok]. simpl. unfold get_top_items.
    destruct (ClientFacts.page_size_reply server it tr (Z.min 50 (total - o), o) k
                (send (get_top_items_request it tr (Z.min 50 (total - o)) o) w) Hk)
      as (items & tot & Hr & _).
    assert (task_items server it tr (Z.min 50 (total - o), o) = default [] items) as Hitems.
    { unfold task_items, page_items. revert Hk Hr. unfold page_size, task_request. simpl.
      destruct (server _) as [s [items' tot'|]|]; try done. simpl.
      destruct (raise_for_status s); [done|]. by intros _ [= -> _]. }
    unfold task_request in Hr; simpl in Hr. rewrite Hr. simpl.
    destruct (IH (all_items ++ default [] items)
                (print (Progress (length (all_items ++ default [] items)) total)
                   (send (get_top_items_request it tr (Z.min 50 (total - o)) o) w)) Hok)
      as [w' ->].
    exists w'. by rewrite Hitems, <- app_assoc.
Qed.

Lemma step_gathering total first_page pages a p p' :
  step server it tr total a p = Some p' →
  gathering server it tr first_page pages p → gathering server it tr first_page pages p'.
Proof.
  destruct p as [q fl fin m w]. unfold gathering, step.
  cbn [work_queue in_flight finished main env].
  intros Hstep (Hq & Hfin & more & -> & Hperm). revert Hstep.
  destruct a as [|i|j].
  - destruct q as [|[l o] q]; [done|]. case_decide; [|done]. intros [= <-].
    cbn [work_queue in_flight finished main env].
    split_and!; [|done|exists more; split; [done|]].
    + revert Hq. rewrite !Forall_app, Forall_cons, Forall_singleton. tauto.
    + rewrite <- Hperm. do 2 f_equiv.
      change (((l, o) :: q) ++ fl) with ((l, o) :: (q ++ fl)).
      f_equiv. by rewrite app_assoc, <- Permutation_cons_append.
  - destruct (fl !! i) as [[l o]|] eqn:Hi; [|done].
    apply Forall_app in Hq as [Hq Hfl].
    pose proof (Forall_lookup_1 _ _ _ _ Hfl Hi) as Hx.
    destruct (no_exit_reply (l, o) w Hx) as (data & Hr & Hitems).
    unfold task_request in Hr; cbn [fst snd] in Hr. rewrite Hr. intros [= <-].
    cbn [work_queue in_flight finished main env].
    split_and!.
    + apply Forall_app. split; [done|by apply Forall_delete].
    + apply Forall_app. split; [done|]. apply Forall_singleton. simpl. eauto.
    + exists more. split; [done|]. rewrite <- Hperm.
      rewrite (delete_Permutation fl i (l, o) Hi) at 2.
      rewrite !bind_app, bind_singleton, bind_cons, Hitems.
      assert (future_items (o, Return data)
              = match get_items data with Return items => items | Raise _ => [] end)
        as -> by (by destruct data).
      set (x := match get_items data with Return _ => _ | Raise _ => _ end).
      rewrite <- !app_assoc. do 2 f_equiv.
      rewrite (Permutation_app_comm x). rewrite <- !app_assoc. f_equiv.
      apply Permutation_app_comm.
  - destruct (fin !! j) as [[o r]|] eqn:Hj; [|done].
    destruct (Forall_lookup_1 _ _ _ _ Hfin Hj) as (data & Hr).
    cbn [snd] in Hr. subst r.
    pose proof (Forall_delete _ _ j Hfin) as Hrest.
    assert (∀ items, future_items (o, Return data) = items →
              (more ++ items) ++ (delete j fin ≫= future_items)
                ++ ((q ++ fl) ≫= task_items server it tr) ≡ₚ pages) as Hnew.
    { intros items <-. rewrite <- Hperm. rewrite (delete_Permutation fin j _ Hj) at 2.
      rewrite bind_cons. by rewrite <- !app_assoc. }
    destruct data as [items tot|]; cbn [get_items is_Exception]; intros [= <-];
      cbn [work_queue in_flight finished main env].
    + split_and!; [done|done|]. exists (more ++ default [] items).
      rewrite app_assoc. split; [done|]. by apply Hnew.
    + split_and!; [done|done|]. exists more. split; [done|].
      rewrite <- (app_nil_r more) at 1. by apply Hnew.
Qed.

Lemma run_gathering total first_page pages sch p p' :
  run server it tr total sch p = Some p' →
  gathering server it tr first_page pages p → gathering server it tr first_page pages p'.
Proof.
  revert p. induction sch as [|a sch IH]; intros p; simpl.
  - by intros [= <-].
  - destruct (step server it tr total a p) as [p1|] eqn:E; [|done].
    eauto using step_gathering.
Qed.

Lemma fetch_parallel_gathers total offsets first_page sch w w' r :
  Forall (λ t, exits (server (task_request it tr t)) = false) (submitted total offsets) →
  fetch_parallel server it tr total offsets first_page sch w = Some (w', r) →
  ∃ more, r = Return (first_page ++ more)
    ∧ more ≡ₚ submitted total offsets ≫= task_items server it tr.
Proof.
  intros Hok. unfold fetch_parallel.
  destruct (run _ _ _ _ _ _) as [p|] eqn:Hrun; [|done].
  destruct (quiescent p) eqn:Hq; [|done]. intros [= _ <-].
  eapply (run_gathering _ first_page (submitted total offsets ≫= task_items server it tr))
    in Hrun.
  - destruct p as [q fl fin m w1]. destruct Hrun as (_ & _ & more & Hm & Hperm).
    simpl in *. subst m. exists more. split; [done|].
    unfold quiescent in Hq. simpl in Hq. destruct q, fl, fin; try done.
    simpl in Hperm. by rewrite app_nil_r in Hperm.
  - unfold gathering. simpl. rewrite app_nil_r. split_and!; [done|done|].
    exists []. by rewrite app_nil_r.
Qed.

(** **** The first page stays in front *)

Lemma fetch_sequential_front total offsets all_items w w' l :
  fetch_sequential server it tr total offsets all_items w = (w', Return l) →
  all_items `prefix_of` l.
Proof.
  revert all_items w. induction offsets as [|o offsets IH]; intros all_items w; simpl.
  - by intros [= _ <-].
  - destruct (get_top_items _ _ _ _ _ _) as [w1 [data|e]]; [|done].
    destruct (get_items data) as [items|e]; [|done].
    intros H%IH. etrans; [|exact H]. by apply prefix_app_r.
Qed.

Lemma step_first_page_in_front total first_page a p p' :
  step server it tr total a p = Some p' →
  first_page_in_front first_page p → first_page_in_front first_page p'.
Proof.
  destruct p as [q fl fin m w]. unfold first_page_in_front, step.
  cbn [work_queue in_flight finished main env]. intros Hstep Hm. revert Hstep.
  destruct a as [|i|j].
  - destruct q as [|[l o] q]; [done|]. case_decide; [|done]. by intros [= <-].
  - destruct (fl !! i) as [[l o]|]; [|done].
    destruct (get_top_items_reply _ _) as [w1 r]. by intros [= <-].
  - destruct m as [all_items|e]; [|done].
    destruct (fin !! j) as [[o r]|]; [|done].
    destruct (match r with Return data => get_items data | Raise e => Raise e end)
      as [items|e]; [|destruct (is_Exception e)]; intros [= <-]; simpl; [|done..].
    by apply prefix_app_r.
Qed.

Lemma run_first_page_in_front total first_page sch p p' :
  run server it tr total sch p = Some p' →
  first_page_in_front first_page p → first_page_in_front first_page p'.
Proof.
  revert p. induction sch as [|a sch IH]; intros p; simpl.
  - by intros [= <-].
  - destruct (step server it tr total a p) as [p1|] eqn:E; [|done].
    eauto using step_first_page_in_front.
Qed.

Lemma fetch_parallel_front total offsets first_page sch w w' l :
  fetch_parallel server it tr total offsets first_page sch w = Some (w', Return l) →
  first_page `prefix_of` l.
Proof.
  unfold fetch_parallel.
  destruct (run _ _ _ _ _ _) as [p|] eqn:Hrun; [|done].
  destruct (quiescent p); [|done].
  apply (run_first_page_in_front _ first_page) in Hrun;
    [|unfold first_page_in_front; simpl; reflexivity].
  unfold first_page_in_front in Hrun. destruct (main p); [|done]. by intros [= _ <-].
Qed.

(** **** Pages whose body is not a JSON object *)

Lemma reply_extends (rp : reply item) w : ∃ d, (get_top_items_reply rp w).1 = w ++ d.
Proof.
  destruct rp as [s data|]; simpl; [destruct (raise_for_status s)|]; simpl;
    unfold print; eauto. exists []. by rewrite app_nil_r.
Qed.

Lemma not_an_object_reply t w :
  not_an_object (server (task_request it tr t)) = true →
  get_top_items_reply (server (task_request it tr t)) w = (w, Return JOther).
Proof.
  unfold not_an_object. destruct (server _) as [s [items tot|]|]; try done.
  intros Hs%negb_true_iff. by apply ClientFacts.reply_returns.
Qed.

Lemma elem_of_delete_or {A} (l : list A) i x y :
  l !! i = Some y → x ∈ l → x = y ∨ x ∈ delete i l.
Proof.
  intros Hi Hx. rewrite (delete_Permutation l i y Hi) in Hx.
  by apply elem_of_cons in Hx.
Qed.

Lemma step_reporting total offset a p p' :
  step server it tr total a p = Some p' →
  reporting server it tr offset p → reporting server it tr offset p'.
Proof.
  destruct p as [q fl fin m w]. unfold reporting, step.
  cbn [work_queue in_flight finished main env]. intros Hstep Hrep. revert Hstep.
  destruct a as [|i|j].
  - destruct q as [|[l o] q]; [done|]. case_decide; [|done]. intros [= <-].
    cbn [work_queue in_flight finished main env].
    destruct Hrep as [(l' & Hin & Hno)|[Hfin|Hprinted]].
    + left. exists l'. split; [|done]. revert Hin.
      change (((l, o) :: q) ++ fl) with ((l, o) :: (q ++ fl)).
      rewrite elem_of_cons, !elem_of_app, list_elem_of_singleton. tauto.
    + by right; left.
    + right; right. unfold send. apply elem_of_app. by left.
  - destruct (fl !! i) as [[l o]|] eqn:Hi; [|done].
    destruct (reply_extends (server (get_top_items_request it tr l o)) w) as [d Hd].
    destruct (get_top_items_reply (server (get_top_items_request it tr l o)) w)
      as [w1 r] eqn:Hr.
    simpl in Hd. subst w1. intros [= <-]. cbn [work_queue in_flight finished main env].
    destruct Hrep as [(l' & Hin & Hno)|[Hfin|Hprinted]].
    + apply elem_of_app in Hin as [Hin|Hin].
      * left. exists l'. split; [|done]. apply elem_of_app. by left.
      * destruct (elem_of_delete_or _ _ _ _ Hi Hin) as [[= -> ->]|Hin'].
        -- right; left. pose proof (not_an_object_reply (l, o) w Hno) as Hjo.
           unfold task_request in Hjo; cbn [fst snd] in Hjo. rewrite Hjo in Hr.
           injection Hr as _ <-. apply elem_of_app. right. by apply list_elem_of_singleton.
        -- left. exists l'. split; [|done]. apply elem_of_app. by right.
    + right; left. apply elem_of_app. by left.
    + right; right. apply elem_of_app. by left.
  - destruct m as [all_items|e]; [|done].
    destruct (fin !! j) as [[o r]|] eqn:Hj; [|done].
    assert (∀ p1 : pool item,
              work_queue p1 = q → in_flight p1 = fl → finished p1 = delete j fin →
              (∃ d, env p1 = w ++ d) →
              ((o, r) = (offset, Return JOther) →
               Print (FailedAtOffset offset AttributeError) ∈ env p1) →
              (∃ l', (l', offset) ∈ work_queue p1 ++ in_flight p1
                 ∧ not_an_object (server (task_request it tr (l', offset))) = true)
              ∨ (offset, Return JOther) ∈ finished p1
              ∨ Print (FailedAtOffset offset AttributeError) ∈ env p1) as Hgen.
    { intros p1 -> -> -> [d ->] Hmine.
      destruct Hrep as [?|[Hfin|Hprinted]]; [by left| |].
      - destruct (elem_of_delete_or _ _ _ _ Hj Hfin) as [Heq|Hin]; [|by right; left].
        right; right. by apply Hmine.
      - right; right. apply elem_of_app. by left. }
    destruct r as [[items tot|]|e]; cbn [get_items];
      [| |destruct (is_Exception e)]; intros [= <-]; apply Hgen; try done;
      cbn [env]; unfold print; eauto.
    + intros [= ->]. apply elem_of_app. right. by apply list_elem_of_singleton.
    + exists []. by rewrite app_nil_r.
Qed.

Lemma run_reporting total offset sch p p' :
  run server it tr total sch p = Some p' →
  reporting server it tr offset p → reporting server it tr offset p'.
Proof.
  revert p. induction sch as [|a sch IH]; intros p; simpl.
  - by intros [= <-].
  - destruct (step server it tr total a p) as [p1|] eqn:E; [|done].
    eauto using step_reporting.
Qed.

Lemma fetch_parallel_reports total offsets first_page sch w w' l o :
  o ∈ offsets →
  not_an_object (server (task_request it tr (Z.min 50 (total - o), o))) = true →
  fetch_parallel server it tr total offsets first_page sch w = Some (w', Return l) →
  Print (FailedAtOffset o AttributeError) ∈ w'.
Proof.
  intros Ho Hno. unfold fetch_parallel.
  destruct (run _ _ _ _ _ _) as [p|] eqn:Hrun; [|done].
  destruct (quiescent p) eqn:Hq; [|done].
  apply (run_reporting _ o) in Hrun.
  - destruct p as [q fl fin m w1]. unfold quiescent in Hq. simpl in *.
    destruct m as [all_items|e]; [|done]. intros [= <- _].
    destruct q, fl, fin; try done.
    destruct Hrun as [(l' & Hin & _)|[Hin|?]]; [| |done]; by apply elem_of_nil in Hin.
  - left. exists (Z.min 50 (total - o)). simpl. rewrite app_nil_r. split; [|done].
    unfold submitted. apply list_elem_of_fmap. eauto.
Qed.

Lemma fetch_sequential_not_an_object total before o after all_items w :
  Forall (λ t, is_Some (page_size (server (task_request it tr t)))) (submitted total before) →
  not_an_object (server (task_request it tr (Z.min 50 (total - o), o))) = true →
  ∃ w', fetch_sequential server it tr total (before ++ o :: after) all_items w
        = (w', Raise AttributeError)
    ∧ requests w' = requests w ++ (task_request it tr <$> submitted total (before ++ [o])).
Proof.
  revert all_items w. induction before as [|o1 before IH]; intros all_items w Hok Hno; simpl.
  - unfold get_top_items.
    change (get_top_items_request it tr (50 `min` (total - o)) o)
      with (task_request it tr (Z.min 50 (total - o), o)).
    rewrite (not_an_object_reply _ _ Hno). simpl. eexists. split; [done|].
    by rewrite ClientFacts.requests_send.
  - apply Forall_cons in Hok as [[k Hk] Hok]. unfold get_top_items.
    destruct (ClientFacts.page_size_reply server it tr (Z.min 50 (total - o1), o1) k
                (send (get_top_items_request it tr (Z.min 50 (total - o1)) o1) w) Hk)
      as (items & tot & Hr & _).
    unfold task_request in Hr; simpl in Hr. rewrite Hr. simpl.
    edestruct (IH (all_items ++ default [] items)) as (w' & -> & Hreq); [done..|].
    exists w'. split; [done|].
    by rewrite Hreq, ClientFacts.requests_print, ClientFacts.requests_send, <- app_assoc.
Qed.

(** **** The pages of [paginate] put side by side *)

Lemma paginate_pages (collection : list item) total (n j : nat) :
  (∀ k : nat, (j ≤ k < j + n)%nat → 50 + 50 * Z.of_nat k < total) →
  take (Z.to_nat (Z.min (50 + 50 * Z.of_nat j) total)) collection
    ++ (submitted total ((λ k : nat, 50 + 50 * Z.of_nat k) <$> seq j n)
          ≫= task_items (paginate collection) it tr)
  = take (Z.to_nat (Z.min (50 + 50 * Z.of_nat (j + n)) total)) collection.
Proof.
  revert j. induction n as [|n IH]; intros j Hlt.
  - simpl. rewrite app_nil_r. do 3 f_equal. lia.
  - cbn [seq fmap list_fmap]. unfold submitted. rewrite fmap_cons, bind_cons.
    fold (submitted total ((λ k : nat, 50 + 50 * Z.of_nat k) <$> seq (S j) n)).
    rewrite app_assoc.
    replace (j + S n)%nat with (S j + n)%nat by lia.
    rewrite <- (IH (S j)) by (intros k Hk; apply Hlt; lia).
    f_equal. pose proof (Hlt j ltac:(lia)) as Hj.
    unfold task_items, page_items, paginate, task_request, get_top_items_request.
    cbn [fst snd limit offset raise_for_status]. simpl.
    replace ((50 + 50 * Z.of_nat j) `min` total) with (50 + 50 * Z.of_nat j) by lia.
    rewrite take_take_drop. f_equal. lia.
Qed.

(** **** [get_all_top_items] past its first page *)

Lemma get_all_past_first s items total max_items parallel sch w :
  server (get_top_items_request it tr 50 0) = Response s (JObject items total) →
  raise_for_status s = false →
  Z.of_nat (length (default [] items)) < capped max_items (default 0 total) →
  get_all_top_items server it tr max_items parallel sch w
  = let first_page := default [] items in
    let total' := capped max_items (default 0 total) in
    let w1 := print (Progress (length first_page) (default 0 total))
                (send (get_top_items_request it tr 50 0) (print (Fetching it tr) w)) in
    match
      (if negb parallel || (length (Py.range 50 total' 50) =? 0)%nat
       then Some (fetch_sequential server it tr total' (Py.range 50 total' 50) first_page w1)
       else fetch_parallel server it tr total' (Py.range 50 total' 50) first_page sch w1)
    with
    | Some (w, Return all_items) => Some (w, Return (Py.slice_to all_items total'))
    | Some (w, Raise e) => Some (w, Raise e)
    | None => None
    end.
Proof.
  intros Hs Hok Hlt. rewrite (ClientFacts.get_all_first_ok server it tr s items total) by done.
  cbv zeta. fold (capped max_items (default 0 total)).
  destruct (_ <=? 0) eqn:Hrem; [apply Z.leb_le in Hrem; lia|done].
Qed.

Lemma prefix_take {A} (l1 l2 : list A) (n : nat) :
  l1 `prefix_of` l2 → (length l1 ≤ n)%nat → l1 `prefix_of` take n l2.
Proof.
  intros [k ->] Hn. rewrite take_app_ge by done. by apply prefix_app_r.
Qed.

Lemma exits_somewhere (tasks : list (Z * Z)) :
  Forall (λ t, exits (server (task_request it tr t)) = false) tasks
  ∨ ∃ t, t ∈ tasks ∧ exits (server (task_request it tr t)) = true.
Proof.
  induction tasks as [|t tasks [IH|(t' & Hin & Hx)]].
  - left. constructor.
  - destruct (exits (server (task_request it tr t))) eqn:Hx.
    + right. exists t. split; [left|done].
    + left. by constructor.
  - right. exists t'. split; [by right|done].
Qed.

(** **** The pages of [paginate] make up the collection *)

Lemma paginate_planned_ok (collection : list item) total :
  Forall (λ t, is_Some (page_size (paginate collection (task_request it tr t))))
    (planned total).
Proof. apply Forall_forall. intros t _. simpl. eauto. Qed.

Lemma paginate_planned_no_exit (collection : list item) total :
  Forall (λ t, exits (paginate collection (task_request it tr t)) = false) (planned total).
Proof. by apply Forall_forall. Qed.

Lemma paginate_reassembles (collection : list item) total :
  50 < total →
  take 50 collection ++ (planned total ≫= task_items (paginate collection) it tr)
  = take (Z.to_nat total) collection.
Proof.
  intros Hlt. unfold planned.
  destruct (FetchFacts.range_50_seq total) as (n & -> & Hk & Hn).
  pose proof (paginate_pages collection total n 0) as H.
  replace (Z.to_nat (Z.min (50 + 50 * Z.of_nat 0) total)) with 50%nat in H by lia.
  rewrite H by (intros k ?; apply Hk; lia). f_equal. lia.
Qed.

Lemma paginate_short (collection : list item) (total : Z) :
  Z.min 50 (Z.of_nat (length collection)) ≤ total →
  total - Z.of_nat (length (take 50 collection)) ≤ 0 →
  take 50 collection = take (Z.to_nat total) collection.
Proof.
  rewrite length_take. intros Hmin Hrem.
  destruct (decide (length collection ≤ 50)%nat).
  - by rewrite !take_ge by lia.
  - f_equal. lia.
Qed.

End Fetch.

End Items.

End FetchFacts.

(** * Further properties of the code *)

(** X1. Whatever the replies and the schedule, the requests that
    [get_all_top_items] sends carry the item type and the time range it
    was given and a limit from 1 to 50, and their offsets are 0, 50, 100
    and so on without a gap or a repetition. *)
Theorem requests_are_well_formed
    {item : Type} (server : Client.request → Client.reply item)
    (it tr : string) (max_items : option Z) (parallel : bool)
    (sch : list Client.action) (w w' : Client.world) (r : Client.result (list item)) :
  Client.get_all_top_items server it tr max_items parallel sch w = Some (w', r) →
  ∃ sent,
    Client.requests w' = Client.requests w ++ sent
    ∧ Forall (Pages.well_formed it tr) sent
    ∧ Client.offset <$> sent = (λ k : nat, 50 * Z.of_nat k) <$> seq 0 (length sent).
Proof.
  intros Hfetch.
  destruct (FetchFacts.get_all_requests_prefix server it tr _ _ _ _ _ _ Hfetch)
    as (total & sent & Hreq & [rest Hrest]).
  exists (Client.get_top_items_request it tr 50 0 :: sent). split; [done|].
  pose proof (FetchFacts.planned_well_formed it tr total) as Hwf.
  pose proof (FetchFacts.planned_offsets it tr total) as Hoff.
  rewrite Hrest in Hwf, Hoff. apply Forall_app in Hwf as [Hwf _].
  split.
  - apply Forall_cons. split; [|done]. unfold Pages.well_formed. simpl.
    repeat split; lia || done.
  - destruct (FetchFacts.range_50_seq total) as (n & Hrange & _).
    rewrite Hrange, fmap_app in Hoff.
    assert (Client.offset <$> sent
            = (λ k : nat, 50 + 50 * Z.of_nat k) <$> seq 0 (length sent)) as Hsent.
    { apply (f_equal (take (length sent))) in Hoff.
      rewrite take_app_length' in Hoff by (by rewrite length_fmap).
      rewrite Hoff, <- fmap_take, take_seq. f_equal. f_equal.
      apply (f_equal length) in Hoff.
      rewrite length_fmap, length_take, length_fmap, length_seq in Hoff. lia. }
    rewrite fmap_cons, Hsent. simpl. f_equal. rewrite <- fmap_S_seq, <- list_fmap_compose.
    apply list_fmap_ext. intros _ k _. simpl. lia.
Qed.

Lemma requests_are_well_formed_witness :
  ∃ w' r sent,
    Client.get_all_top_items
      (Scenario.api_failing_at 150 (Client.Response 429 Client.JOther) 237)
      "artists" "short_term" None false [] [] = Some (w', r)
    ∧ Client.requests w' = sent
    ∧ Forall (Pages.well_formed "artists" "short_term") sent
    ∧ Client.offset <$> sent = [0; 50; 100; 150].
Proof.
  assert (∃ w' r, Client.get_all_top_items
                    (Scenario.api_failing_at 150 (Client.Response 429 Client.JOther) 237)
                    "artists" "short_term" None false [] [] = Some (w', r)
                  ∧ length (Client.requests w') = 4%nat) as (w' & r & E & Hlen).
  { vm_compute. do 2 eexists. split; reflexivity. }
  destruct (requests_are_well_formed _ _ _ _ _ _ _ _ _ E) as (sent & Hsent & Hwf & Hoff).
  exists w', r, sent. simpl in Hsent. rewrite Hsent in Hlen |- *. by rewrite Hoff, Hlen.
Defined.

(** X2. A sequential fetch whose pages all come back as JSON objects
    returns the first page followed by the other pages in the order of
    their offsets, cut after [total] items, [total] being the declared
    total capped by [max_items]. *)
Theorem sequential_fetch_keeps_order
    {item : Type} (server : Client.request → Client.reply item)
    (it tr : string) (max_items : option Z) (sch : list Client.action) (w : Client.world)
    (s : Z) (items : option (list item)) (total : option Z) :
  server (Client.Request it tr 50 0) = Client.Response s (Client.JObject items total) →
  Client.raise_for_status s = false →
  Z.of_nat (length (default [] items)) < Pages.capped max_items (default 0 total) →
  Forall (λ t, is_Some (Client.page_size (server (Client.task_request it tr t))))
    (Pages.planned (Pages.capped max_items (default 0 total))) →
  ∃ w',
    Client.get_all_top_items server it tr max_items false sch w
    = Some (w', Client.Return
                  (Py.slice_to
                     (default [] items
                      ++ (Pages.planned (Pages.capped max_items (default 0 total))
                            ≫= Pages.task_items server it tr))
                     (Pages.capped max_items (default 0 total)))).
Proof.
  intros Hs Hok Hlt Hpages.
  rewrite (FetchFacts.get_all_past_first server it tr s items total) by done. cbv zeta.
  simpl negb. simpl orb. cbv iota.
  destruct (FetchFacts.fetch_sequential_items server it tr _ _ (default [] items)
              (Client.print (Client.Progress (length (default [] items)) (default 0 total))
                 (Client.send (Client.get_top_items_request it tr 50 0)
                    (Client.print (Client.Fetching it tr) w))) Hpages) as [w' ->].
  eauto.
Qed.

Lemma sequential_fetch_keeps_order_witness :
  (∃ w',
     Client.get_all_top_items (Scenario.api 120) "tracks" "medium_term" (Some 110) false [] []
     = Some (w', Client.Return
                   (Py.slice_to
                      (seqZ 0 50 ++ (Pages.planned 110
                                       ≫= Pages.task_items (Scenario.api 120)
                                            "tracks" "medium_term"))
                      110)))
  ∧ Py.slice_to
      (seqZ 0 50 ++ (Pages.planned 110
                       ≫= Pages.task_items (Scenario.api 120) "tracks" "medium_term"))
      110 = seqZ 0 110.
Proof.
  split; [|vm_compute; reflexivity].
  apply (sequential_fetch_keeps_order (Scenario.api 120) "tracks" "medium_term" (Some 110)
           [] [] 200 (Some (seqZ 0 50)) (Some 120)); [reflexivity|reflexivity|done|].
  vm_compute. repeat constructor; eauto.
Defined.

(** X3. A parallel fetch in which no page request fails returns, for every
    execution of the pool, the first page followed by the items of the
    other pages in some order, cut after [total] items; a page whose body
    is not a JSON object brings no item.  Such executions exist. *)
Theorem parallel_fetch_permutes_pages
    {item : Type} (server : Client.request → Client.reply item)
    (it tr : string) (max_items : option Z) (sch : list Client.action) (w w' : Client.world)
    (r : Client.result (list item))
    (s : Z) (items : option (list item)) (total : option Z) :
  server (Client.Request it tr 50 0) = Client.Response s (Client.JObject items total) →
  Client.raise_for_status s = false →
  Z.of_nat (length (default [] items)) < Pages.capped max_items (default 0 total) →
  Forall (λ t, Client.exits (server (Client.task_request it tr t)) = false)
    (Pages.planned (Pages.capped max_items (default 0 total))) →
  (∃ sch0 out, Client.get_all_top_items server it tr max_items true sch0 w = Some out)
  ∧ (Client.get_all_top_items server it tr max_items true sch w = Some (w', r) →
     ∃ more,
       r = Client.Return (Py.slice_to (default [] items ++ more)
                            (Pages.capped max_items (default 0 total)))
       ∧ more ≡ₚ Pages.planned (Pages.capped max_items (default 0 total))
                   ≫= Pages.task_items server it tr).
Proof.
  intros Hs Hok Hlt Hpages. split; [apply ClientFacts.get_all_top_items_exists|].
  rewrite (FetchFacts.get_all_past_first server it tr s items total) by done. cbv zeta.
  simpl negb. simpl orb. unfold Pages.planned in *.
  destruct (Py.range 50 _ 50) as [|o offsets] eqn:Hrange.
  - simpl. intros [= _ <-]. exists []. by rewrite app_nil_r.
  - cbn [length Nat.eqb].
    destruct (Client.fetch_parallel _ _ _ _ _ _ _ _) as [[w2 r2]|] eqn:Hpar; [|done].
    destruct (FetchFacts.fetch_parallel_gathers server it tr _ _ _ _ _ _ _ Hpages Hpar)
      as (more & -> & Hperm).
    intros [= _ <-]. eauto.
Qed.

Lemma parallel_fetch_permutes_pages_witness :
  let sch := [Client.Start; Client.Start; Client.Finish 1; Client.Yield 0;
              Client.Finish 0; Client.Yield 0] in
  ∃ w' more,
    Client.get_all_top_items (Scenario.api 120) "tracks" "medium_term" None true sch []
    = Some (w', Client.Return (Py.slice_to (seqZ 0 50 ++ more) 120))
    ∧ more ≡ₚ Pages.planned 120 ≫= Pages.task_items (Scenario.api 120) "tracks" "medium_term"
    ∧ more = seqZ 100 20 ++ seqZ 50 50.
Proof.
  intros sch.
  assert (∃ w' r, Client.get_all_top_items (Scenario.api 120) "tracks" "medium_term"
                    None true sch [] = Some (w', r)
                  ∧ r = Client.Return (seqZ 0 50 ++ seqZ 100 20 ++ seqZ 50 50))
    as (w' & r & E & Hr).
  { vm_compute. do 2 eexists. split; reflexivity. }
  assert (Forall (λ t, Client.exits (Scenario.api 120
                                       (Client.task_request "tracks" "medium_term" t)) = false)
            (Pages.planned (Pages.capped None (default 0 (Some 120))))) as Hpages
    by (vm_compute; repeat constructor).
  destruct (proj2 (parallel_fetch_permutes_pages (Scenario.api 120) "tracks" "medium_term"
                     None sch [] w' r 200 (Some (seqZ 0 50)) (Some 120)
                     eq_refl eq_refl ltac:(done) Hpages) E) as (more & Hmore & Hperm).
  exists w', more. rewrite Hr in Hmore.
  assert (more = seqZ 100 20 ++ seqZ 50 50) as Heq.
  { assert (length more = 70%nat) as Hlen
      by (apply Permutation_length in Hperm; rewrite Hperm; reflexivity).
    apply (f_equal (λ r, match r with Client.Return l => l | Client.Raise _ => [] end))
      in Hmore. cbv beta iota in Hmore.
    rewrite PyFacts.slice_to_all in Hmore
      by (rewrite length_app, Hlen; vm_compute; discriminate).
    change (default [] (Some (seqZ 0 50))) with (seqZ 0 50) in Hmore.
    symmetry. by apply app_inv_head in Hmore. }
  split_and!; [rewrite E, Hr, Heq; reflexivity|done|done].
Defined.

(** X4. Against an API that serves the slices of a collection, a
    sequential fetch returns the collection itself, or its first [total]
    items when [max_items] caps the total, provided the cap is not below
    the size of the first page. *)
Theorem sequential_fetch_reassembles
    {item : Type} (collection : list item)
    (it tr : string) (max_items : option Z) (sch : list Client.action) (w : Client.world) :
  Z.min 50 (Z.of_nat (length collection))
    ≤ Pages.capped max_items (Z.of_nat (length collection)) →
  ∃ w',
    Client.get_all_top_items (Pages.paginate collection) it tr max_items false sch w
    = Some (w', Client.Return
                  (take (Z.to_nat (Pages.capped max_items (Z.of_nat (length collection))))
                     collection)).
Proof.
  intros Hcap.
  set (total := Pages.capped max_items (Z.of_nat (length collection))) in *.
  assert (total ≤ Z.of_nat (length collection)) as Htotal
    by (subst total; unfold Pages.capped; destruct (Py.truthy_int max_items); lia).
  assert (Pages.paginate collection (Client.get_top_items_request it tr 50 0)
          = Client.Response 200 (Client.JObject (Some (take 50 collection))
                                   (Some (Z.of_nat (length collection))))) as Hfirst
    by reflexivity.
  destruct (decide (total - Z.of_nat (length (take 50 collection)) ≤ 0)) as [Hrem|Hrem].
  - rewrite (ClientFacts.get_all_first_ok _ it tr 200 _ _ _ _ _ _ Hfirst eq_refl). cbv zeta.
    fold (Pages.capped max_items (default 0 (Some (Z.of_nat (length collection))))).
    change (default 0 (Some (Z.of_nat (length collection))))
      with (Z.of_nat (length collection)).
    change (default [] (Some (take 50 collection))) with (take 50 collection).
    fold total. rewrite (proj2 (Z.leb_le _ _) Hrem).
    rewrite (FetchFacts.paginate_short collection total Hcap Hrem). eauto.
  - assert (50 < total) as H50 by (rewrite length_take in Hrem; lia).
    rewrite (FetchFacts.get_all_past_first _ it tr 200 _ _ _ _ _ _ Hfirst eq_refl)
      by (change (default 0 (Some (Z.of_nat (length collection))))
            with (Z.of_nat (length collection)); simpl; fold total; lia).
    cbv zeta. simpl negb. simpl orb. cbv iota.
    change (default 0 (Some (Z.of_nat (length collection))))
      with (Z.of_nat (length collection)).
    change (default [] (Some (take 50 collection))) with (take 50 collection).
    fold total.
    edestruct (FetchFacts.fetch_sequential_items (Pages.paginate collection) it tr total
                 (Py.range 50 total 50) (take 50 collection)) as [w' ->];
      [apply FetchFacts.paginate_planned_ok|].
    fold (Pages.planned total). rewrite FetchFacts.paginate_reassembles by done.
    rewrite PyFacts.slice_to_all by (rewrite length_take; lia). eauto.
Qed.

Lemma sequential_fetch_reassembles_witness :
  ∃ w',
    Client.get_all_top_items (Pages.paginate (seqZ 0 237)) "tracks" "long_term"
      (Some 120) false [] []
    = Some (w', Client.Return (take (Z.to_nat (Pages.capped (Some 120) 237)) (seqZ 0 237))).
Proof.
  apply (sequential_fetch_reassembles (seqZ 0 237) "tracks" "long_term" (Some 120) [] []).
  vm_compute. discriminate.
Defined.

(** X5. Against the same API, every execution of a parallel fetch returns
    a list that has the same items as the collection, or as its first
    [total] items, with the first page in its place. *)
Theorem parallel_fetch_reassembles
    {item : Type} (collection : list item)
    (it tr : string) (max_items : option Z) (sch : list Client.action) (w w' : Client.world)
    (r : Client.result (list item)) :
  Z.min 50 (Z.of_nat (length collection))
    ≤ Pages.capped max_items (Z.of_nat (length collection)) →
  Client.get_all_top_items (Pages.paginate collection) it tr max_items true sch w
  = Some (w', r) →
  ∃ l, r = Client.Return l
    ∧ l ≡ₚ take (Z.to_nat (Pages.capped max_items (Z.of_nat (length collection)))) collection
    ∧ take 50 l = take 50 collection.
Proof.
  intros Hcap.
  set (total := Pages.capped max_items (Z.of_nat (length collection))) in *.
  assert (total ≤ Z.of_nat (length collection)) as Htotal
    by (subst total; unfold Pages.capped; destruct (Py.truthy_int max_items); lia).
  assert (Pages.paginate collection (Client.get_top_items_request it tr 50 0)
          = Client.Response 200 (Client.JObject (Some (take 50 collection))
                                   (Some (Z.of_nat (length collection))))) as Hfirst
    by reflexivity.
  destruct (decide (total - Z.of_nat (length (take 50 collection)) ≤ 0)) as [Hrem|Hrem].
  - rewrite (ClientFacts.get_all_first_ok _ it tr 200 _ _ _ _ _ _ Hfirst eq_refl). cbv zeta.
    fold (Pages.capped max_items (default 0 (Some (Z.of_nat (length collection))))).
    change (default 0 (Some (Z.of_nat (length collection))))
      with (Z.of_nat (length collection)).
    change (default [] (Some (take 50 collection))) with (take 50 collection).
    fold total. rewrite (proj2 (Z.leb_le _ _) Hrem). intros [= _ <-].
    exists (take 50 collection). split_and!; [done| |by rewrite take_take].
    by rewrite (FetchFacts.paginate_short collection total Hcap Hrem).
  - assert (50 < total) as H50 by (rewrite length_take in Hrem; lia).
    rewrite (FetchFacts.get_all_past_first _ it tr 200 _ _ _ _ _ _ Hfirst eq_refl)
      by (change (default 0 (Some (Z.of_nat (length collection))))
            with (Z.of_nat (length collection)); simpl; fold total; lia).
    cbv zeta. simpl negb. simpl orb.
    change (default 0 (Some (Z.of_nat (length collection))))
      with (Z.of_nat (length collection)).
    change (default [] (Some (take 50 collection))) with (take 50 collection).
    fold total.
    destruct (PyFacts.range_50_cons total H50) as [offsets Hrange].
    rewrite Hrange at 1. cbn [length Nat.eqb].
    destruct (Client.fetch_parallel _ _ _ _ _ _ _ _) as [[w2 r2]|] eqn:Hpar; [|done].
    destruct (FetchFacts.fetch_parallel_gathers _ it tr _ _ _ _ _ _ _
                (FetchFacts.paginate_planned_no_exit it tr collection total) Hpar)
      as (more & -> & Hperm).
    intros [= _ <-].
    assert (take 50 collection ++ more ≡ₚ take (Z.to_nat total) collection) as Hall.
    { rewrite Hperm. fold (Pages.planned total).
      by rewrite FetchFacts.paginate_reassembles. }
    exists (take 50 collection ++ more).
    rewrite PyFacts.slice_to_all
      by (rewrite (Permutation_length Hall), length_take; lia).
    split_and!; [done|done|].
    by rewrite take_app_length' by (rewrite length_take; lia).
Qed.

Lemma parallel_fetch_reassembles_witness :
  let sch := [Client.Start; Client.Start; Client.Finish 1; Client.Yield 0;
              Client.Finish 0; Client.Yield 0] in
  ∃ w' l,
    Client.get_all_top_items (Pages.paginate (seqZ 0 120)) "tracks" "medium_term"
      None true sch [] = Some (w', Client.Return l)
    ∧ l = seqZ 0 50 ++ seqZ 100 20 ++ seqZ 50 50
    ∧ l ≡ₚ take (Z.to_nat (Pages.capped None 120)) (seqZ 0 120)
    ∧ take 50 l = take 50 (seqZ 0 120).
Proof.
  intros sch.
  assert (∃ w' r, Client.get_all_top_items (Pages.paginate (seqZ 0 120)) "tracks"
                    "medium_term" None true sch [] = Some (w', r)
                  ∧ r = Client.Return (seqZ 0 50 ++ seqZ 100 20 ++ seqZ 50 50))
    as (w' & r & E & Hr).
  { vm_compute. do 2 eexists. split; reflexivity. }
  destruct (parallel_fetch_reassembles (seqZ 0 120) "tracks" "medium_term" None sch [] w' r
              ltac:(vm_compute; discriminate) E) as (l & Hl & Hperm & Hfront).
  assert (l = seqZ 0 50 ++ seqZ 100 20 ++ seqZ 50 50) as Heq by congruence.
  exists w', l. rewrite E, Hl.
  split_and!; [reflexivity|exact Heq|exact Hperm|exact Hfront].
Defined.

(** X6. In a parallel fetch, a page that comes back with a good status
    and a body that is not a JSON object is a soft failure: whenever the
    fetch returns a list, the line that names the failed offset has been
    printed. *)
Theorem parallel_fetch_reports_bad_page
    {item : Type} (server : Client.request → Client.reply item)
    (it tr : string) (max_items : option Z) (sch : list Client.action) (w w' : Client.world)
    (l : list item) (s : Z) (items : option (list item)) (total : option Z) (o : Z) :
  server (Client.Request it tr 50 0) = Client.Response s (Client.JObject items total) →
  Client.raise_for_status s = false →
  Z.of_nat (length (default [] items)) < Pages.capped max_items (default 0 total) →
  o ∈ Py.range 50 (Pages.capped max_items (default 0 total)) 50 →
  Pages.not_an_object
    (server (Client.task_request it tr
               (Z.min 50 (Pages.capped max_items (default 0 total) - o), o))) = true →
  Client.get_all_top_items server it tr max_items true sch w = Some (w', Client.Return l) →
  Client.Print (Client.FailedAtOffset o Client.AttributeError) ∈ w'.
Proof.
  intros Hs Hok Hlt Ho Hno.
  rewrite (FetchFacts.get_all_past_first server it tr s items total) by done. cbv zeta.
  simpl negb. simpl orb.
  destruct (Py.range 50 _ 50) as [|o1 offsets] eqn:Hrange; [by apply elem_of_nil in Ho|].
  cbn [length Nat.eqb].
  destruct (Client.fetch_parallel _ _ _ _ _ _ _ _) as [[w2 [l2|e]]|] eqn:Hpar; [|done..].
  intros [= <- _].
  exact (FetchFacts.fetch_parallel_reports server it tr _ _ _ _ _ _ _ _ Ho Hno Hpar).
Qed.

Lemma parallel_fetch_reports_bad_page_witness :
  let server := Scenario.api_failing_at 50 (Client.Response 200 Client.JOther) 120 in
  let sch := [Client.Start; Client.Start; Client.Finish 0; Client.Finish 0;
              Client.Yield 1; Client.Yield 0] in
  ∃ w',
    Client.get_all_top_items server "tracks" "medium_term" None true sch []
    = Some (w', Client.Return (seqZ 0 50 ++ seqZ 100 20))
    ∧ Client.Print (Client.FailedAtOffset 50 Client.AttributeError) ∈ w'.
Proof.
  intros server sch.
  assert (∃ w', Client.get_all_top_items server "tracks" "medium_term" None true sch []
                = Some (w', Client.Return (seqZ 0 50 ++ seqZ 100 20))) as [w' E].
  { vm_compute. eexists. reflexivity. }
  exists w'. split; [exact E|].
  apply (parallel_fetch_reports_bad_page server "tracks" "medium_term" None sch [] w'
           (seqZ 0 50 ++ seqZ 100 20) 200 (Some (seqZ 0 50)) (Some 120) 50);
    [reflexivity|reflexivity|done| |reflexivity|exact E].
  change (Py.range 50 (Pages.capped None (default 0 (Some 120))) 50) with [50; 100].
  by left.
Defined.

(** X7. In a sequential fetch the same page is fatal: the fetch ends with
    [AttributeError] right after the request of that page, the later
    pages are not requested and nothing is returned. *)
Theorem sequential_fetch_stops_at_bad_page
    {item : Type} (server : Client.request → Client.reply item)
    (it tr : string) (max_items : option Z) (sch : list Client.action) (w : Client.world)
    (s : Z) (items : option (list item)) (total : option Z)
    (before after : list Z) (o : Z) :
  server (Client.Request it tr 50 0) = Client.Response s (Client.JObject items total) →
  Client.raise_for_status s = false →
  Z.of_nat (length (default [] items)) < Pages.capped max_items (default 0 total) →
  Py.range 50 (Pages.capped max_items (default 0 total)) 50 = before ++ o :: after →
  Forall (λ t, is_Some (Client.page_size (server (Client.task_request it tr t))))
    (Client.submitted (Pages.capped max_items (default 0 total)) before) →
  Pages.not_an_object
    (server (Client.task_request it tr
               (Z.min 50 (Pages.capped max_items (default 0 total) - o), o))) = true →
  ∃ w',
    Client.get_all_top_items server it tr max_items false sch w
    = Some (w', Client.Raise Client.AttributeError)
    ∧ Client.requests w'
      = Client.requests w ++ Client.Request it tr 50 0
          :: (Client.task_request it tr
                <$> Client.submitted (Pages.capped max_items (default 0 total))
                      (before ++ [o])).
Proof.
  intros Hs Hok Hlt Hrange Hbefore Hno.
  rewrite (FetchFacts.get_all_past_first server it tr s items total) by done. cbv zeta.
  simpl negb. simpl orb. cbv iota. rewrite Hrange.
  set (w1 := Client.print _ _).
  destruct (FetchFacts.fetch_sequential_not_an_object server it tr _ before o after
              (default [] items) w1 Hbefore Hno) as (w' & -> & Hreq).
  exists w'. split; [done|]. rewrite Hreq. subst w1.
  by rewrite ClientFacts.requests_print, ClientFacts.requests_send,
    ClientFacts.requests_print, <- app_assoc.
Qed.

Lemma sequential_fetch_stops_at_bad_page_witness :
  let server := Scenario.api_failing_at 100 (Client.Response 200 Client.JOther) 237 in
  ∃ w',
    Client.get_all_top_items server "tracks" "medium_term" None false [] []
    = Some (w', Client.Raise Client.AttributeError)
    ∧ Client.requests w'
      = [] ++ Client.Request "tracks" "medium_term" 50 0
          :: (Client.task_request "tracks" "medium_term"
                <$> Client.submitted (Pages.capped None (default 0 (Some 237))) ([50] ++ [100])).
Proof.
  intros server.
  apply (sequential_fetch_stops_at_bad_page server "tracks" "medium_term" None [] []
           200 (Some (seqZ 0 50)) (Some 237) [50] [150; 200] 100);
    [reflexivity|reflexivity|done|reflexivity| |reflexivity].
  repeat constructor. vm_compute. eauto.
Defined.

(** X9. Whenever [get_all_top_items] returns a list, the list starts with
    the first page as it came, and it has at most [total] items unless the
    first page alone has more. *)
Theorem first_page_stays_in_front
    {item : Type} (server : Client.request → Client.reply item)
    (it tr : string) (max_items : option Z) (parallel : bool)
    (sch : list Client.action) (w w' : Client.world) (l : list item)
    (s : Z) (items : option (list item)) (total : option Z) :
  server (Client.Request it tr 50 0) = Client.Response s (Client.JObject items total) →
  Client.raise_for_status s = false →
  Client.get_all_top_items server it tr max_items parallel sch w
  = Some (w', Client.Return l) →
  default [] items `prefix_of` l
  ∧ Z.of_nat (length l)
    ≤ Z.max (Pages.capped max_items (default 0 total)) (Z.of_nat (length (default [] items))).
Proof.
  intros Hs Hok.
  destruct (decide (Z.of_nat (length (default [] items))
                    < Pages.capped max_items (default 0 total))) as [Hlt|Hge].
  - rewrite (FetchFacts.get_all_past_first server it tr s items total) by done. cbv zeta.
    set (total' := Pages.capped max_items (default 0 total)) in *.
    assert (∀ l2, default [] items `prefix_of` l2 →
              default [] items `prefix_of` Py.slice_to l2 total'
              ∧ Z.of_nat (length (Py.slice_to l2 total'))
                ≤ Z.max total' (Z.of_nat (length (default [] items)))) as Hcut.
    { intros l2 Hpre. pose proof (PyFacts.slice_to_length l2 total' ltac:(lia)).
      split; [|lia]. unfold Py.slice_to. destruct (total' <? 0) eqn:E; [lia|].
      apply FetchFacts.prefix_take; [done|lia]. }
    destruct (negb parallel || _).
    + destruct (Client.fetch_sequential _ _ _ _ _ _ _) as [w2 [l2|e]] eqn:Hseq; [|done].
      intros [= _ <-]. apply Hcut.
      exact (FetchFacts.fetch_sequential_front server it tr _ _ _ _ _ _ Hseq).
    + destruct (Client.fetch_parallel _ _ _ _ _ _ _ _) as [[w2 [l2|e]]|] eqn:Hpar; [|done..].
      intros [= _ <-]. apply Hcut.
      exact (FetchFacts.fetch_parallel_front server it tr _ _ _ _ _ _ _ Hpar).
  - rewrite (ClientFacts.get_all_first_ok server it tr s items total) by done. cbv zeta.
    fold (Pages.capped max_items (default 0 total)).
    rewrite (proj2 (Z.leb_le _ _)) by lia. intros [= _ <-]. split; [done|lia].
Qed.

Lemma first_page_stays_in_front_witness :
  let sch := [Client.Start; Client.Start; Client.Finish 1; Client.Yield 0;
              Client.Finish 0; Client.Yield 0] in
  ∃ w' l,
    Client.get_all_top_items (Scenario.api 120) "tracks" "medium_term" (Some 110) true sch []
    = Some (w', Client.Return l)
    ∧ seqZ 0 50 `prefix_of` l
    ∧ Z.of_nat (length l) ≤ 110.
Proof.
  intros sch.
  assert (∃ w' l, Client.get_all_top_items (Scenario.api 120) "tracks" "medium_term"
                    (Some 110) true sch [] = Some (w', Client.Return l))
    as (w' & l & E).
  { vm_compute. do 2 eexists. reflexivity. }
  exists w', l. split; [exact E|].
  exact (first_page_stays_in_front (Scenario.api 120) "tracks" "medium_term" (Some 110)
           true sch [] w' l 200 (Some (seqZ 0 50)) (Some 120) eq_refl eq_refl E).
Defined.

(** X10. The only exception that a parallel fetch lets out once the first
    page has come is the [SystemExit(1)] of [get_top_items], and it lets
    it out exactly when a page request has failed: [AttributeError] does
    not leave the collecting loop. *)
Theorem parallel_fetch_raises_only_SystemExit
    {item : Type} (server : Client.request → Client.reply item)
    (it tr : string) (max_items : option Z) (sch : list Client.action) (w w' : Client.world)
    (r : Client.result (list item))
    (s : Z) (items : option (list item)) (total : option Z) :
  server (Client.Request it tr 50 0) = Client.Response s (Client.JObject items total) →
  Client.raise_for_status s = false →
  Client.get_all_top_items server it tr max_items true sch w = Some (w', r) →
  (r = Client.Raise (Client.SystemExit 1)
   ∧ Z.of_nat (length (default [] items)) < Pages.capped max_items (default 0 total)
   ∧ ∃ t, t ∈ Pages.planned (Pages.capped max_items (default 0 total))
          ∧ Client.exits (server (Client.task_request it tr t)) = true)
  ∨ ((∃ l, r = Client.Return l)
     ∧ (Z.of_nat (length (default [] items)) < Pages.capped max_items (default 0 total) →
        Forall (λ t, Client.exits (server (Client.task_request it tr t)) = false)
          (Pages.planned (Pages.capped max_items (default 0 total))))).
Proof.
  intros Hs Hok.
  destruct (decide (Z.of_nat (length (default [] items))
                    < Pages.capped max_items (default 0 total))) as [Hlt|Hge].
  - rewrite (FetchFacts.get_all_past_first server it tr s items total) by done. cbv zeta.
    simpl negb. simpl orb. unfold Pages.planned.
    destruct (Py.range 50 _ 50) as [|o offsets] eqn:Hrange.
    + simpl. intros [= _ <-]. right. split; [eauto|]. intros _. constructor.
    + cbn [length Nat.eqb].
      destruct (Client.fetch_parallel _ _ _ _ _ _ _ _) as [[w2 r2]|] eqn:Hpar; [|done].
      destruct (FetchFacts.exits_somewhere server it tr
                  (Client.submitted (Pages.capped max_items (default 0 total)) (o :: offsets)))
        as [Hnone|(t & Ht & Hx)].
      * destruct (FetchFacts.fetch_parallel_gathers server it tr _ _ _ _ _ _ _ Hnone Hpar)
          as (more & -> & _).
        intros [= _ <-]. right. eauto.
      * rewrite (ClientFacts.fetch_parallel_exits server it tr _ _ _ _ _ _ _ t Ht Hx Hpar).
        intros [= _ <-]. left. eauto.
  - rewrite (ClientFacts.get_all_first_ok server it tr s items total) by done. cbv zeta.
    fold (Pages.capped max_items (default 0 total)).
    rewrite (proj2 (Z.leb_le _ _)) by lia. intros [= _ <-]. right. split; [eauto|lia].
Qed.

Lemma parallel_fetch_raises_only_SystemExit_witness :
  let server := Scenario.api_failing_at 100 (Client.Response 503 Client.JOther) 120 in
  let sch := [Client.Start; Client.Start; Client.Finish 1; Client.Yield 0; Client.Finish 0] in
  ∃ w',
    Client.get_all_top_items server "tracks" "medium_term" None true sch []
    = Some (w', Client.Raise (Client.SystemExit 1))
    ∧ ∃ t, t ∈ Pages.planned (Pages.capped None (default 0 (Some 120)))
           ∧ Client.exits (server (Client.task_request "tracks" "medium_term" t)) = true.
Proof.
  intros server sch.
  assert (∃ w', Client.get_all_top_items server "tracks" "medium_term" None true sch []
                = Some (w', Client.Raise (Client.SystemExit 1))) as [w' E].
  { vm_compute. eexists. reflexivity. }
  exists w'. split; [exact E|].
  destruct (parallel_fetch_raises_only_SystemExit server "tracks" "medium_term" None sch []
              w' _ 200 (Some (seqZ 0 50)) (Some 120) eq_refl eq_refl E)
    as [(_ & _ & Ht)|([l Hl] & _)]; [exact Ht|discriminate].
Defined.

(** * Properties of [clean_track_data] *)

Module TracksFacts.

Import Tracks.

Lemma clean_track_market_free track : market_free (clean_track track).
Proof.
  unfold clean_track, market_free. cbv zeta.
  destruct (delete "available_markets" track !! "album") as [[| | | | |album]|] eqn:Halbum;
    try (split; [apply lookup_delete_eq|intros a; rewrite Halbum; congruence]).
  split.
  - rewrite lookup_insert_ne by done. apply lookup_delete_eq.
  - intros a. rewrite lookup_insert_eq. intros [= <-]. apply lookup_delete_eq.
Qed.

Lemma clean_track_fixed track : market_free track → clean_track track = track.
Proof.
  intros [Hnone Halbum]. unfold clean_track. cbv zeta. rewrite (delete_id _ _ Hnone).
  destruct (track !! "album") as [[| | | | |album]|] eqn:E; try done.
  rewrite (delete_id _ _ (Halbum _ eq_refl)). by apply insert_id.
Qed.

Lemma clean_track_other track key :
  key ≠ "available_markets" → key ≠ "album" → clean_track track !! key = track !! key.
Proof.
  intros Hm Ha. unfold clean_track. cbv zeta.
  destruct (delete "available_markets" track !! "album") as [[| | | | |album]|];
    rewrite ?lookup_insert_ne by done; by apply lookup_delete_ne.
Qed.

Lemma clean_track_album track :
  clean_track track !! "album"
  = match track !! "album" with
    | Some (JDict album) => Some (JDict (delete "available_markets" album))
    | other => other
    end.
Proof.
  unfold clean_track. cbv zeta. rewrite (lookup_delete_ne track) by done.
  destruct (track !! "album") as [[| | | | |album]|] eqn:E;
    rewrite ?lookup_insert_eq, ?lookup_delete_ne by done; done.
Qed.

End TracksFacts.

(** X11. With [keep_markets] false, no track that [clean_track_data]
    returns carries ["available_markets"], and no album of such a track
    does. *)
Theorem clean_track_data_removes_markets (tracks : list (gmap string Tracks.json)) :
  Forall Tracks.market_free (Tracks.clean_track_data tracks false).
Proof.
  unfold Tracks.clean_track_data. apply Forall_fmap, Forall_forall.
  intros track _. apply TracksFacts.clean_track_market_free.
Qed.

(** X12. [clean_track_data] returns as many tracks as it is given, in the
    same order; it returns the list itself when [keep_markets] is true;
    otherwise every member of a track other than ["available_markets"] and
    ["album"] is kept as it is, an album that is not a dictionary is kept
    as it is, and an album that is one keeps all its members but
    ["available_markets"]. *)
Theorem clean_track_data_keeps_the_rest
    (tracks : list (gmap string Tracks.json)) (keep_markets : bool) :
  length (Tracks.clean_track_data tracks keep_markets) = length tracks
  ∧ Tracks.clean_track_data tracks true = tracks
  ∧ ∀ (i : nat) (track : gmap string Tracks.json),
      tracks !! i = Some track →
      ∃ cleaned,
        Tracks.clean_track_data tracks false !! i = Some cleaned
        ∧ (∀ key, key ≠ "available_markets" → key ≠ "album" →
             cleaned !! key = track !! key)
        ∧ match track !! "album" with
          | Some (Tracks.JDict album) =>
              ∃ album', cleaned !! "album" = Some (Tracks.JDict album')
                ∧ ∀ key, key ≠ "available_markets" → album' !! key = album !! key
          | other => cleaned !! "album" = other
          end.
Proof.
  split_and!.
  - unfold Tracks.clean_track_data. destruct keep_markets; [done|apply length_fmap].
  - done.
  - intros i track Hi. exists (Tracks.clean_track track). split_and!.
    + unfold Tracks.clean_track_data. by rewrite list_lookup_fmap, Hi.
    + intros key. apply TracksFacts.clean_track_other.
    + rewrite TracksFacts.clean_track_album.
      destruct (track !! "album") as [[| | | | |album]|]; try done.
      eexists. split; [done|]. intros key Hkey. by apply lookup_delete_ne.
Qed.

Lemma clean_track_data_keeps_the_rest_witness :
  let track : gmap string Tracks.json :=
    {[ "name" := Tracks.JStr "Song";
       "available_markets" := Tracks.JList [Tracks.JStr "FR"];
       "album" := Tracks.JStr "single" ]} in
  ∃ cleaned,
    Tracks.clean_track_data [∅; track] false !! 1%nat = Some cleaned
    ∧ cleaned !! "name" = Some (Tracks.JStr "Song")
    ∧ cleaned !! "album" = Some (Tracks.JStr "single").
Proof.
  intros track.
  destruct (proj2 (proj2 (clean_track_data_keeps_the_rest [∅; track] false))
              1%nat track eq_refl) as (cleaned & Hcleaned & Hrest & Halbum).
  exists cleaned. split_and!; [exact Hcleaned| |exact Halbum].
  rewrite (Hrest "name") by discriminate. reflexivity.
Defined.

(** X13. Cleaning twice is cleaning once, and tracks that carry no
    ["available_markets"] come back unchanged. *)
Theorem clean_track_data_idempotent (tracks : list (gmap string Tracks.json)) :
  Tracks.clean_track_data (Tracks.clean_track_data tracks false) false
  = Tracks.clean_track_data tracks false
  ∧ (Forall Tracks.market_free tracks → Tracks.clean_track_data tracks false = tracks).
Proof.
  assert (∀ l, Forall Tracks.market_free l → Tracks.clean_track_data l false = l) as Hfixed.
  { intros l Hl. unfold Tracks.clean_track_data. rewrite <- (list_fmap_id l) at 2.
    apply Forall_fmap_ext_1. eapply Forall_impl; [exact Hl|].
    intros track. apply TracksFacts.clean_track_fixed. }
  split; [|apply Hfixed].
  apply Hfixed. unfold Tracks.clean_track_data. apply Forall_fmap, Forall_forall.
  intros track _. apply TracksFacts.clean_track_market_free.
Qed.

Lemma clean_track_data_idempotent_witness :
  let track : gmap string Tracks.json :=
    {[ "name" := Tracks.JStr "Song";
       "available_markets" := Tracks.JList [Tracks.JStr "FR"; Tracks.JStr "DE"];
       "album" := Tracks.JDict {[ "name" := Tracks.JStr "Album";
                                  "available_markets" := Tracks.JList [Tracks.JStr "FR"] ]} ]} in
  let cleaned : gmap string Tracks.json :=
    {[ "name" := Tracks.JStr "Song";
       "album" := Tracks.JDict {[ "name" := Tracks.JStr "Album" ]} ]} in
  Tracks.clean_track_data [track] false = [cleaned]
  ∧ Tracks.clean_track_data [cleaned] false = [cleaned].
Proof.
  intros track cleaned. split; [vm_compute; reflexivity|].
  apply (proj2 (clean_track_data_idempotent [cleaned])).
  repeat constructor. intros album. vm_compute. intros [= <-]. reflexivity.
Defined.

(** * Further properties of the token manager *)

Module ListenerFacts.

Import Auth Callbacks.
Local Open Scope Z_scope.

Section Flow.

Variable token_endpoint : token_request → reply.

Lemma do_GET_malformed p should_stop w :
  malformed p →
  do_GET token_endpoint p should_stop w
  = (should_stop, World (token_file w) (trace w ++ [Respond 400])).
Proof. intros [Hcode Herror]. unfold do_GET. by rewrite Hcode, Herror. Qed.

Lemma serve_forever_malformed junk incoming w :
  Forall malformed junk →
  serve_forever token_endpoint (junk ++ incoming) false w
  = serve_forever token_endpoint incoming false
      (World (token_file w) (trace w ++ refusals (length junk))).
Proof.
  revert w. induction junk as [|p junk IH]; intros w Hjunk.
  - simpl. rewrite app_nil_r. by destruct w.
  - apply Forall_cons in Hjunk as [Hp Hjunk]. simpl.
    rewrite (do_GET_malformed p false w Hp), (IH _ Hjunk). simpl.
    by rewrite <- app_assoc.
Qed.

Lemma serve_forever_nil should_stop w :
  serve_forever token_endpoint [] should_stop w = (should_stop, w, []).
Proof. by destruct should_stop. Qed.

Lemma serve_forever_stop p incoming w w1 :
  do_GET token_endpoint p false w = (true, w1) →
  serve_forever token_endpoint (p :: incoming) false w = (true, w1, incoming).
Proof. intros H. simpl. rewrite H. by destruct incoming. Qed.

Lemma authenticate_unfold incoming w :
  authenticate token_endpoint incoming w
  = match serve_forever token_endpoint incoming false
            (World (token_file w) (trace w ++ opening)) with
    | (true, w1, _) => Done (load_tokens w1 !! "access_token") w1
    | (false, w1, _) => Blocked w1
    end.
Proof.
  unfold authenticate, start_auth_flow, emit, opening. simpl.
  rewrite <- !app_assoc. simpl.
  by destruct (serve_forever _ _ _ _) as [[[] w1] rest].
Qed.

Lemma get_valid_token_no_refresh e incoming w :
  Py.truthy_str (SPOTIFY_CLIENT_ID e) = true →
  Py.truthy_str (SPOTIFY_CLIENT_SECRET e) = true →
  available (SPOTIFY_REFRESH_TOKEN e) (load_tokens w) = None →
  get_valid_token token_endpoint e incoming w = authenticate token_endpoint incoming w.
Proof.
  intros Hid Hsecret Hav. unfold get_valid_token. rewrite Hid, Hsecret. simpl.
  rewrite AuthFacts.available_test, Hav. rewrite bool_decide_eq_false_2; [done|].
  by intros [? ?].
Qed.

(** **** The token file is written by a successful exchange only *)

Lemma do_GET_keeps_file p should_stop w :
  (∀ code, is_Some (post_failure (token_endpoint (AuthorizationCode code)))) →
  token_file (do_GET token_endpoint p should_stop w).2 = token_file w.
Proof.
  intros Hfail. unfold do_GET. destruct (p !! "code") as [[code more]|].
  - destruct (Hfail code) as [exc Hexc].
    by rewrite (AuthFacts.do_GET_code_raises token_endpoint code exc w Hexc).
  - by destruct (p !! "error") as [[error more]|]; [destruct (Py.latin_1 error)|].
Qed.

Lemma serve_forever_keeps_file incoming should_stop w :
  (∀ code, is_Some (post_failure (token_endpoint (AuthorizationCode code)))) →
  token_file (serve_forever token_endpoint incoming should_stop w).1.2 = token_file w.
Proof.
  intros Hfail. revert should_stop w.
  induction incoming as [|p incoming IH]; intros [] w; simpl; try done.
  pose proof (do_GET_keeps_file p false w Hfail) as Hp.
  destruct (do_GET token_endpoint p false w) as [stop w1]. simpl in Hp.
  by rewrite IH.
Qed.

End Flow.

End ListenerFacts.

(** X14. What [save_tokens] is given can be read back with [load_tokens],
    whatever the token file held before: the members are the same, except
    ["expires_at"], which is the ["expires_in"] of the record, or 3600
    when it has none.  Without a token file, [load_tokens] gives the empty
    dictionary. *)
Theorem save_then_load (t : gmap string Auth.jval) (w : Auth.world) :
  (∀ key, key ≠ "expires_at" →
     Auth.load_tokens (Auth.save_tokens t w).1 !! key = t !! key)
  ∧ Auth.load_tokens (Auth.save_tokens t w).1 !! "expires_at"
    = Some (default (Auth.JNum 3600) (t !! "expires_in"))
  ∧ Auth.trace (Auth.save_tokens t w).1 = Auth.trace w ++ [Auth.Print Auth.TokensSaved]
  ∧ Auth.load_tokens (Auth.World None (Auth.trace w)) = ∅.
Proof.
  change (Auth.load_tokens (Auth.save_tokens t w).1) with (Auth.saved t).
  split_and!; [|apply lookup_insert_eq|done|done].
  intros key Hkey. by apply AuthFacts.saved_lookup_ne.
Qed.

Lemma save_then_load_witness :
  let t : gmap string Auth.jval :=
    {[ "access_token" := Auth.JStr "fresh"; "expires_in" := Auth.JNum 1800 ]} in
  let w := Auth.World (Some {[ "refresh_token" := Auth.JStr "old" ]}) [] in
  Auth.load_tokens (Auth.save_tokens t w).1 !! "access_token" = Some (Auth.JStr "fresh")
  ∧ Auth.load_tokens (Auth.save_tokens t w).1 !! "refresh_token" = None
  ∧ Auth.load_tokens (Auth.save_tokens t w).1 !! "expires_at" = Some (Auth.JNum 1800).
Proof.
  intros t w.
  destruct (save_then_load t w) as (Hkeys & Hexpires & _ & _).
  split_and!.
  - rewrite (Hkeys "access_token") by discriminate. reflexivity.
  - rewrite (Hkeys "refresh_token") by discriminate. reflexivity.
  - rewrite Hexpires. reflexivity.
Defined.

(** X15. With no refresh token at hand, a callback that bears a code whose
    exchange succeeds, after any number of callbacks that bear neither
    code nor error, makes [get_valid_token] return the access token of the
    exchange.  The token file holds the record of the exchange; what the
    process has done is the opening of the flow, one 400 for each of the
    first callbacks, the exchange and its lines, and nothing else: no
    refresh was tried, and the listener has stopped with the later
    callbacks unanswered. *)
Theorem interactive_flow_returns_exchanged_token
    (token_endpoint : Auth.token_request → Auth.reply) (e : Auth.environ)
    (junk : list (gmap string (string * list string)))
    (p : gmap string (string * list string))
    (later : list (gmap string (string * list string))) (w : Auth.world)
    (code : string) (more : list string) (s : Z) (body : gmap string Auth.jval) :
  Py.truthy_str (Auth.SPOTIFY_CLIENT_ID e) = true →
  Py.truthy_str (Auth.SPOTIFY_CLIENT_SECRET e) = true →
  Auth.available (Auth.SPOTIFY_REFRESH_TOKEN e) (Auth.load_tokens w) = None →
  Forall Callbacks.malformed junk →
  p !! "code" = Some (code, more) →
  token_endpoint (Auth.AuthorizationCode code) = Auth.Response s body →
  Auth.raise_for_status s = false →
  Auth.printable (body !! "access_token") →
  body !! "refresh_token" = None ∨ Auth.printable (body !! "refresh_token") →
  let w' :=
    Auth.World (Some (Auth.saved body))
      (Auth.trace w ++ Callbacks.opening ++ Callbacks.refusals (length junk)
         ++ Auth.Post (Auth.AuthorizationCode code) :: Auth.Print Auth.TokensSaved
         :: Auth.Respond 200 :: Auth.Print Auth.AuthSuccessful :: Auth.shown_tokens body) in
  Auth.get_valid_token token_endpoint e (junk ++ p :: later) w
  = Auth.Done (body !! "access_token") w'
  ∧ Auth.serve_forever token_endpoint (junk ++ p :: later) false
      (Auth.World (Auth.token_file w) (Auth.trace w ++ Callbacks.opening))
    = (true, w', later).
Proof.
  intros Hid Hsecret Hav Hjunk Hcode Hr Hs Ha Hrt w'.
  assert (Auth.serve_forever token_endpoint (junk ++ p :: later) false
            (Auth.World (Auth.token_file w) (Auth.trace w ++ Callbacks.opening))
          = (true, w', later)) as Hserve.
  { rewrite (ListenerFacts.serve_forever_malformed _ _ _ _ Hjunk).
    simpl Auth.token_file. simpl Auth.trace.
    apply ListenerFacts.serve_forever_stop.
    unfold Auth.do_GET. rewrite Hcode.
    rewrite (AuthFacts.do_GET_code_shows token_endpoint code s body _ Hr Hs Ha Hrt).
    subst w'. simpl. by rewrite <- !app_assoc. }
  split; [|exact Hserve].
  rewrite (ListenerFacts.get_valid_token_no_refresh token_endpoint e _ w Hid Hsecret Hav).
  rewrite ListenerFacts.authenticate_unfold, Hserve.
  subst w'. unfold Auth.load_tokens. simpl. by rewrite AuthFacts.saved_lookup_ne.
Qed.

Lemma interactive_flow_returns_exchanged_token_witness :
  let endpoint := λ _ : Auth.token_request,
    Auth.Response 200 {[ "access_token" := Auth.JStr "fresh";
                         "refresh_token" := Auth.JStr "new" ]} in
  let w' :=
    Auth.World
      (Some (Auth.saved {[ "access_token" := Auth.JStr "fresh";
                           "refresh_token" := Auth.JStr "new" ]}))
      (Callbacks.opening
         ++ [Auth.Respond 400; Auth.Respond 400;
             Auth.Post (Auth.AuthorizationCode "c0de"); Auth.Print Auth.TokensSaved;
             Auth.Respond 200; Auth.Print Auth.AuthSuccessful;
             Auth.Print (Auth.ShowAccessToken "fresh");
             Auth.Print (Auth.ShowRefreshToken "new")]) in
  Auth.get_valid_token endpoint (Auth.Environ (Some "id") (Some "secret") None)
    ([∅; {[ "state" := ("x", []) ]}] ++ {[ "code" := ("c0de", []) ]} :: [∅]) (Auth.World None [])
  = Auth.Done (Some (Auth.JStr "fresh")) w'
  ∧ Auth.serve_forever endpoint
      ([∅; {[ "state" := ("x", []) ]}] ++ {[ "code" := ("c0de", []) ]} :: [∅]) false
      (Auth.World None ([] ++ Callbacks.opening))
    = (true, w', [∅]).
Proof.
  intros endpoint w'.
  exact (interactive_flow_returns_exchanged_token endpoint
           (Auth.Environ (Some "id") (Some "secret") None)
           [∅; {[ "state" := ("x", []) ]}] {[ "code" := ("c0de", []) ]} [∅]
           (Auth.World None []) "c0de" [] 200
           {[ "access_token" := Auth.JStr "fresh"; "refresh_token" := Auth.JStr "new" ]}
           eq_refl eq_refl eq_refl ltac:(repeat constructor) eq_refl eq_refl eq_refl
           I (or_intror I)).
Defined.

(** X16. When the callback that ends the interactive flow bears an error
    that can be encoded in Latin-1 and no code, [get_valid_token] does
    not fail: it returns the access token that the token file already
    held, or [None] when there is none, and leaves the file as it is.
    This holds when no refresh token was at hand and when the refresh
    request failed. *)
Theorem denied_authorization_returns_stored_token
    (token_endpoint : Auth.token_request → Auth.reply) (e : Auth.environ)
    (junk : list (gmap string (string * list string)))
    (p : gmap string (string * list string))
    (later : list (gmap string (string * list string))) (w : Auth.world)
    (error : string) (more : list string) :
  Py.truthy_str (Auth.SPOTIFY_CLIENT_ID e) = true →
  Py.truthy_str (Auth.SPOTIFY_CLIENT_SECRET e) = true →
  Forall Callbacks.malformed junk →
  p !! "code" = None →
  p !! "error" = Some (error, more) →
  Py.latin_1 error = true →
  (Auth.available (Auth.SPOTIFY_REFRESH_TOKEN e) (Auth.load_tokens w) = None →
   Auth.get_valid_token token_endpoint e (junk ++ p :: later) w
   = Auth.Done (Auth.load_tokens w !! "access_token")
       (Auth.World (Auth.token_file w)
          (Auth.trace w ++ Callbacks.opening ++ Callbacks.refusals (length junk)
             ++ [Auth.Respond 400; Auth.Print (Auth.AuthenticationError error)])))
  ∧ (∀ prior exc,
       Auth.available (Auth.SPOTIFY_REFRESH_TOKEN e) (Auth.load_tokens w) = Some prior →
       Auth.post_failure (token_endpoint (Auth.RefreshToken prior)) = Some exc →
       Auth.get_valid_token token_endpoint e (junk ++ p :: later) w
       = Auth.Done (Auth.load_tokens w !! "access_token")
           (Auth.World (Auth.token_file w)
              (Auth.trace w
                 ++ [Auth.Print Auth.Refreshing; Auth.Post (Auth.RefreshToken prior);
                     Auth.Print (Auth.CouldNotRefresh exc); Auth.Print Auth.StartingNewFlow]
                 ++ Callbacks.opening ++ Callbacks.refusals (length junk)
                 ++ [Auth.Respond 400; Auth.Print (Auth.AuthenticationError error)]))).
Proof.
  intros Hid Hsecret Hjunk Hcode Herror Hlatin.
  assert (∀ w0, Auth.authenticate token_endpoint (junk ++ p :: later) w0
                = Auth.Done (Auth.load_tokens w0 !! "access_token")
                    (Auth.World (Auth.token_file w0)
                       (Auth.trace w0 ++ Callbacks.opening ++ Callbacks.refusals (length junk)
                          ++ [Auth.Respond 400;
                              Auth.Print (Auth.AuthenticationError error)]))) as Hflow.
  { intros w0.
    rewrite ListenerFacts.authenticate_unfold,
      (ListenerFacts.serve_forever_malformed _ _ _ _ Hjunk).
    simpl Auth.token_file. simpl Auth.trace.
    rewrite (ListenerFacts.serve_forever_stop token_endpoint p later _
               (Auth.World (Auth.token_file w0)
                  (((Auth.trace w0 ++ Callbacks.opening) ++ Callbacks.refusals (length junk))
                     ++ [Auth.Respond 400; Auth.Print (Auth.AuthenticationError error)])))
      by (unfold Auth.do_GET, Auth.emit; rewrite Hcode, Herror, Hlatin; simpl;
          by rewrite <- !app_assoc).
    unfold Auth.load_tokens. simpl. by rewrite <- !app_assoc. }
  split.
  - intros Hav.
    by rewrite (ListenerFacts.get_valid_token_no_refresh token_endpoint e _ w Hid Hsecret Hav).
  - intros prior exc Hav Hfail.
    rewrite (AuthFacts.get_valid_token_refreshes token_endpoint e _ w prior Hid Hsecret Hav).
    rewrite (AuthFacts.refresh_stored_raises token_endpoint _ _ prior exc w Hav Hfail).
    rewrite Hflow. unfold Auth.emit, Auth.load_tokens. simpl. by rewrite <- !app_assoc.
Qed.

Lemma denied_authorization_returns_stored_token_witness :
  let endpoint := λ _ : Auth.token_request, Auth.Response 400 ∅ in
  let w := Auth.World (Some {[ "access_token" := Auth.JStr "stale";
                               "refresh_token" := Auth.JStr "expired" ]}) [] in
  ∃ w',
    Auth.get_valid_token endpoint (Auth.Environ (Some "id") (Some "secret") None)
      ([] ++ {[ "error" := ("access_denied", []) ]} :: []) w
    = Auth.Done (Some (Auth.JStr "stale")) w'
    ∧ Auth.token_file w' = Auth.token_file w.
Proof.
  intros endpoint w. eexists. split.
  - apply (proj2 (denied_authorization_returns_stored_token endpoint
                    (Auth.Environ (Some "id") (Some "secret") None)
                    [] {[ "error" := ("access_denied", []) ]} [] w "access_denied" []
                    eq_refl eq_refl ltac:(constructor) eq_refl eq_refl eq_refl)
             (Auth.JStr "expired") (Auth.HTTPError 400)); reflexivity.
  - reflexivity.
Defined.

(** X17. Callbacks that bear neither code nor error never end the
    interactive flow: each is answered with 400, the token file is left as
    it is, and [get_valid_token] is still waiting. *)
Theorem malformed_callbacks_keep_waiting
    (token_endpoint : Auth.token_request → Auth.reply) (e : Auth.environ)
    (junk : list (gmap string (string * list string))) (w : Auth.world) :
  Py.truthy_str (Auth.SPOTIFY_CLIENT_ID e) = true →
  Py.truthy_str (Auth.SPOTIFY_CLIENT_SECRET e) = true →
  Auth.available (Auth.SPOTIFY_REFRESH_TOKEN e) (Auth.load_tokens w) = None →
  Forall Callbacks.malformed junk →
  Auth.get_valid_token token_endpoint e junk w
  = Auth.Blocked
      (Auth.World (Auth.token_file w)
         (Auth.trace w ++ Callbacks.opening ++ Callbacks.refusals (length junk))).
Proof.
  intros Hid Hsecret Hav Hjunk.
  rewrite (ListenerFacts.get_valid_token_no_refresh token_endpoint e _ w Hid Hsecret Hav).
  rewrite ListenerFacts.authenticate_unfold.
  rewrite <- (app_nil_r junk) at 1.
  rewrite (ListenerFacts.serve_forever_malformed _ _ _ _ Hjunk), ListenerFacts.serve_forever_nil.
  simpl. by rewrite <- !app_assoc.
Qed.

Lemma malformed_callbacks_keep_waiting_witness :
  Auth.get_valid_token (λ _, Auth.RequestException)
    (Auth.Environ (Some "id") (Some "secret") (Some ""))
    [∅; {[ "state" := ("x", []) ]}; ∅] (Auth.World None [])
  = Auth.Blocked
      (Auth.World None ([] ++ Callbacks.opening ++ Callbacks.refusals 3)).
Proof.
  apply (malformed_callbacks_keep_waiting (λ _, Auth.RequestException)
           (Auth.Environ (Some "id") (Some "secret") (Some ""))
           [∅; {[ "state" := ("x", []) ]}; ∅] (Auth.World None []));
    try reflexivity.
  repeat constructor.
Defined.

(** X18. The listener writes the token file after a successful exchange
    only: when every exchange fails, the file is the same after any
    sequence of callbacks, however the listening ends. *)
Theorem failed_exchanges_leave_token_file
    (token_endpoint : Auth.token_request → Auth.reply)
    (incoming : list (gmap string (string * list string))) (w : Auth.world) :
  (∀ code, is_Some (Auth.post_failure (token_endpoint (Auth.AuthorizationCode code)))) →
  Auth.token_file (Auth.serve_forever token_endpoint incoming false w).1.2 = Auth.token_file w
  ∧ Auth.token_file (Auth.outcome_world (Auth.authenticate token_endpoint incoming w))
    = Auth.token_file w.
Proof.
  intros Hfail. split; [by apply ListenerFacts.serve_forever_keeps_file|].
  rewrite ListenerFacts.authenticate_unfold.
  pose proof (ListenerFacts.serve_forever_keeps_file token_endpoint incoming false
                (Auth.World (Auth.token_file w) (Auth.trace w ++ Callbacks.opening)) Hfail) as H.
  by destruct (Auth.serve_forever _ _ _ _) as [[[] w1] rest].
Qed.

Lemma failed_exchanges_leave_token_file_witness :
  let w := Auth.World (Some {[ "access_token" := Auth.JStr "kept" ]}) [] in
  let incoming : list (gmap string (string * list string)) :=
    [{[ "code" := ("a", []) ]}; ∅; {[ "code" := ("b", []) ]};
     {[ "error" := ("access_denied", []) ]}] in
  Auth.token_file (Auth.serve_forever (λ _, Auth.RequestException) incoming false w).1.2
  = Auth.token_file w
  ∧ (Auth.serve_forever (λ _, Auth.RequestException) incoming false w).1.1 = true.
Proof.
  intros w incoming. split; [|reflexivity].
  apply (failed_exchanges_leave_token_file (λ _, Auth.RequestException) incoming w).
  intros code. simpl. eauto.
Defined.

(** X19. A refresh whose response brings an access token and a new
    refresh token makes [get_valid_token] return that access token
    without starting the interactive flow; the token file is replaced by
    the response (with its ["expires_at"]), so it holds the new refresh
    token and nothing of the record it held before. *)
Theorem refresh_stores_rotated_token
    (token_endpoint : Auth.token_request → Auth.reply) (e : Auth.environ)
    (incoming : list (gmap string (string * list string))) (w : Auth.world)
    (prior : Auth.jval) (s : Z) (body : gmap string Auth.jval) (a r : Auth.jval) :
  Py.truthy_str (Auth.SPOTIFY_CLIENT_ID e) = true →
  Py.truthy_str (Auth.SPOTIFY_CLIENT_SECRET e) = true →
  Auth.available (Auth.SPOTIFY_REFRESH_TOKEN e) (Auth.load_tokens w) = Some prior →
  token_endpoint (Auth.RefreshToken prior) = Auth.Response s body →
  Auth.raise_for_status s = false →
  body !! "access_token" = Some a →
  body !! "refresh_token" = Some r →
  ∃ w',
    Auth.get_valid_token token_endpoint e incoming w = Auth.Done (Some a) w'
    ∧ Auth.trace w'
      = Auth.trace w ++ [Auth.Print Auth.Refreshing; Auth.Post (Auth.RefreshToken prior);
                         Auth.Print Auth.TokensSaved; Auth.Print Auth.Refreshed]
    ∧ Auth.load_tokens w' !! "refresh_token" = Some r
    ∧ ∀ key, key ≠ "expires_at" → Auth.load_tokens w' !! key = body !! key.
Proof.
  intros Hid Hsecret Hav Hr Hs Ha Hrt.
  rewrite (AuthFacts.get_valid_token_refreshes token_endpoint e incoming w prior Hid Hsecret Hav).
  rewrite (AuthFacts.refresh_stored_returns token_endpoint _ _ prior s body w Hav Hr Hs), Ha.
  assert (Auth.merged prior body = body) as -> by (unfold Auth.merged; by rewrite Hrt).
  eexists. split_and!; [done|done| |].
  - unfold Auth.load_tokens. simpl. by rewrite AuthFacts.saved_lookup_ne.
  - intros key Hkey. unfold Auth.load_tokens. simpl. by apply AuthFacts.saved_lookup_ne.
Qed.

Lemma refresh_stores_rotated_token_witness :
  let endpoint := λ _ : Auth.token_request,
    Auth.Response 200 {[ "access_token" := Auth.JStr "fresh";
                         "refresh_token" := Auth.JStr "rotated" ]} in
  let w := Auth.World
             (Some {[ "access_token" := Auth.JStr "stale"; "refresh_token" := Auth.JStr "old";
                      "scope" := Auth.JStr "user-top-read" ]}) [] in
  ∃ w',
    Auth.get_valid_token endpoint (Auth.Environ (Some "id") (Some "secret") None) [] w
    = Auth.Done (Some (Auth.JStr "fresh")) w'
    ∧ Auth.load_tokens w' !! "refresh_token" = Some (Auth.JStr "rotated")
    ∧ Auth.load_tokens w' !! "scope" = None.
Proof.
  intros endpoint w.
  destruct (refresh_stores_rotated_token endpoint
              (Auth.Environ (Some "id") (Some "secret") None) [] w (Auth.JStr "old") 200
              {[ "access_token" := Auth.JStr "fresh"; "refresh_token" := Auth.JStr "rotated" ]}
              (Auth.JStr "fresh") (Auth.JStr "rotated")
              eq_refl eq_refl eq_refl eq_refl eq_refl eq_refl eq_refl)
    as (w' & Hdone & _ & Hrt & Hrest).
  exists w'. split_and!; [exact Hdone|exact Hrt|].
  rewrite (Hrest "scope") by discriminate. reflexivity.
Defined.

(** X20. A refresh whose response brings no ["access_token"] has already
    replaced the token file, by a record without access token, when
    [get_valid_token] gives the refresh up: the success message has been
    printed, the missing key is reported as the reason, and the
    interactive flow starts from that file. *)
Theorem refresh_without_access_token_overwrites_file
    (token_endpoint : Auth.token_request → Auth.reply) (e : Auth.environ)
    (incoming : list (gmap string (string * list string))) (w : Auth.world)
    (prior : Auth.jval) (s : Z) (body : gmap string Auth.jval) :
  Py.truthy_str (Auth.SPOTIFY_CLIENT_ID e) = true →
  Py.truthy_str (Auth.SPOTIFY_CLIENT_SECRET e) = true →
  Auth.available (Auth.SPOTIFY_REFRESH_TOKEN e) (Auth.load_tokens w) = Some prior →
  token_endpoint (Auth.RefreshToken prior) = Auth.Response s body →
  Auth.raise_for_status s = false →
  body !! "access_token" = None →
  ∃ w1,
    Auth.get_valid_token token_endpoint e incoming w
    = Auth.authenticate token_endpoint incoming w1
    ∧ Auth.trace w1
      = Auth.trace w ++ [Auth.Print Auth.Refreshing; Auth.Post (Auth.RefreshToken prior);
                         Auth.Print Auth.TokensSaved; Auth.Print Auth.Refreshed;
                         Auth.Print (Auth.CouldNotRefresh (Auth.KeyError "access_token"));
                         Auth.Print Auth.StartingNewFlow]
    ∧ Auth.token_file w1 = Some (Auth.saved (Auth.merged prior body))
    ∧ Auth.load_tokens w1 !! "access_token" = None.
Proof.
  intros Hid Hsecret Hav Hr Hs Ha.
  rewrite (AuthFacts.get_valid_token_refreshes token_endpoint e incoming w prior Hid Hsecret Hav).
  rewrite (AuthFacts.refresh_stored_returns token_endpoint _ _ prior s body w Hav Hr Hs), Ha.
  eexists. split_and!; [done| |done|].
  - unfold Auth.emit. simpl. by rewrite <- !app_assoc.
  - unfold Auth.load_tokens, Auth.emit. simpl. rewrite AuthFacts.saved_lookup_ne by done.
    unfold Auth.merged. destruct (body !! "refresh_token"); [done|].
    by rewrite lookup_insert_ne.
Qed.

Lemma refresh_without_access_token_overwrites_file_witness :
  let endpoint := λ _ : Auth.token_request,
    Auth.Response 200 {[ "error" := Auth.JStr "invalid_grant" ]} in
  let w := Auth.World
             (Some {[ "access_token" := Auth.JStr "stale";
                      "refresh_token" := Auth.JStr "old" ]}) [] in
  ∃ w',
    Auth.get_valid_token endpoint (Auth.Environ (Some "id") (Some "secret") None)
      [{[ "error" := ("access_denied", []) ]}] w
    = Auth.Done None w'
    ∧ Auth.load_tokens w' !! "refresh_token" = Some (Auth.JStr "old").
Proof.
  intros endpoint w.
  destruct (refresh_without_access_token_overwrites_file endpoint
              (Auth.Environ (Some "id") (Some "secret") None)
              [{[ "error" := ("access_denied", []) ]}] w (Auth.JStr "old") 200
              {[ "error" := Auth.JStr "invalid_grant" ]}
              eq_refl eq_refl eq_refl eq_refl eq_refl eq_refl)
    as ([file shown] & -> & _ & Hfile & _).
  simpl in Hfile. rewrite Hfile. eexists. split; reflexivity.
Defined.

(** X21. A callback that bears a code whose exchange succeeds with a
    response without ["access_token"] is answered twice, with 200 and then
    with 500, after the response has been written to the token file; it
    does not stop the listener. *)
Theorem callback_without_access_token
    (token_endpoint : Auth.token_request → Auth.reply)
    (p : gmap string (string * list string)) (should_stop : bool) (w : Auth.world)
    (code : string) (more : list string) (s : Z) (body : gmap string Auth.jval) :
  p !! "code" = Some (code, more) →
  token_endpoint (Auth.AuthorizationCode code) = Auth.Response s body →
  Auth.raise_for_status s = false →
  body !! "access_token" = None →
  Auth.do_GET token_endpoint p should_stop w
  = (should_stop,
     Auth.World (Some (Auth.saved body))
       (Auth.trace w
          ++ [Auth.Post (Auth.AuthorizationCode code); Auth.Print Auth.TokensSaved;
              Auth.Respond 200; Auth.Print Auth.AuthSuccessful;
              Auth.Print (Auth.ErrorGettingTokens (Auth.KeyError "access_token"));
              Auth.Respond 500])).
Proof.
  intros Hcode Hr Hs Ha. unfold Auth.do_GET. rewrite Hcode.
  unfold Auth.do_GET_code, Auth.get_tokens_from_code, mbind, Auth.M_bind.
  rewrite (AuthFacts.post_returns token_endpoint _ _ _ _ Hr Hs), AuthFacts.save_tokens_spec.
  unfold Auth.subscript, Auth.act, Auth.print, Auth.act, Auth.emit, mret, Auth.M_ret. simpl.
  rewrite AuthFacts.saved_lookup_ne, Ha by done. simpl.
  by rewrite <- !app_assoc.
Qed.

Lemma callback_without_access_token_witness :
  let endpoint := λ _ : Auth.token_request,
    Auth.Response 200 {[ "token_type" := Auth.JStr "Bearer" ]} in
  Auth.serve_forever endpoint [{[ "code" := ("c0de", []) ]}] false (Auth.World None [])
  = (false,
     Auth.World (Some (Auth.saved {[ "token_type" := Auth.JStr "Bearer" ]}))
       ([] ++ [Auth.Post (Auth.AuthorizationCode "c0de"); Auth.Print Auth.TokensSaved;
               Auth.Respond 200; Auth.Print Auth.AuthSuccessful;
               Auth.Print (Auth.ErrorGettingTokens (Auth.KeyError "access_token"));
               Auth.Respond 500]),
     []).
Proof.
  intros endpoint.
  change (Auth.serve_forever endpoint [{[ "code" := ("c0de", []) ]}] false (Auth.World None []))
    with (let '(should_stop, w) :=
            Auth.do_GET endpoint {[ "code" := ("c0de", []) ]} false (Auth.World None []) in
          Auth.serve_forever endpoint [] should_stop w).
  rewrite (callback_without_access_token endpoint {[ "code" := ("c0de", []) ]} false
             (Auth.World None []) "c0de" [] 200 {[ "token_type" := Auth.JStr "Bearer" ]})
    by reflexivity.
  reflexivity.
Defined.
